(** * RegBot: the registration dialogue of [registration-bot/main.py]

    A shallow embedding of the schema-driven field collection loop
    ([run_registration]), of the validator ([is_valid]) and of the gateway to
    the text-generation service ([llm], [explain_field],
    [summarize_answers]), together with the properties the specification
    states about them.

    Conventions of the embedding.
    - A Python [str] is a Rocq [string]; a character is a code point below
      256, so that [ascii] holds it.  Whitespace, lower-casing and the
      regular-expression classes are the ones Python uses on that range.
    - Standard input is the list of lines that [input()] will return; when it
      is exhausted [input()] raises [EOFError].
    - Standard output is the list of things printed, one event per [print]
      (or per prompt of [input]); each event names the statement that
      printed it.
    - The text-generation service is an oracle: the n-th request gets the
      answer the oracle gives for n and the request. *)

From Stdlib Require Import List String Ascii Bool Arith Lia.
From Stdlib Require Import DecimalString.
Import ListNotations.
Open Scope list_scope.
Open Scope string_scope.

(** ** Text: the [str] methods the program uses *)

Module Text.

Definition code (c : ascii) : nat := nat_of_ascii c.

Definition between (lo hi : nat) (c : ascii) : bool :=
  (lo <=? code c)%nat && (code c <=? hi)%nat.

(** [str.isspace] on one character: TAB..CR, FS..US, SPACE, NEL, NBSP. *)
Definition isspace (c : ascii) : bool :=
  between 9 13 c || between 28 32 c || (code c =? 133)%nat || (code c =? 160)%nat.

(** Decimal digits (category Nd): below 256 these are [0-9]. *)
Definition isdecimal (c : ascii) : bool := between 48 57 c.

(** [str.lower] on one character: A-Z and the Latin-1 capitals
    U+00C0..U+00DE (the multiplication sign U+00D7 is not a letter). *)
Definition lower_char (c : ascii) : ascii :=
  if between 65 90 c || (between 192 222 c && negb (code c =? 215)%nat)
  then ascii_of_nat (code c + 32)
  else c.

Fixpoint lower (s : string) : string :=
  match s with
  | EmptyString => EmptyString
  | String c s' => String (lower_char c) (lower s')
  end.

Fixpoint lstrip (s : string) : string :=
  match s with
  | EmptyString => EmptyString
  | String c s' => if isspace c then lstrip s' else s
  end.

Fixpoint rstrip (s : string) : string :=
  match s with
  | EmptyString => EmptyString
  | String c s' =>
      match rstrip s' with
      | EmptyString => if isspace c then EmptyString else String c EmptyString
      | r => String c r
      end
  end.

(** [s.strip()] *)
Definition strip (s : string) : string := lstrip (rstrip s).

(** Truth value of a string: [bool(s)], false exactly for [""]. *)
Definition truthy (s : string) : bool :=
  match s with EmptyString => false | _ => true end.

(** [x or ""] for an optional string. *)
Definition or_empty (o : option string) : string :=
  match o with Some s => s | None => "" end.

(** [name in s]: substring test, used to state what a message contains. *)
Fixpoint contains (needle s : string) : bool :=
  String.prefix needle s ||
  match s with
  | EmptyString => false
  | String _ s' => contains needle s'
  end.

Definition first_char (s : string) : option ascii :=
  match s with EmptyString => None | String c _ => Some c end.

Fixpoint last_char (s : string) : option ascii :=
  match s with
  | EmptyString => None
  | String c EmptyString => Some c
  | String _ s' => last_char s'
  end.

(** No whitespace at either end. *)
Definition trimmed (s : string) : Prop :=
  (forall c, first_char s = Some c -> isspace c = false) /\
  (forall c, last_char s = Some c -> isspace c = false).

Definition newline : ascii := ascii_of_nat 10.
Definition nl : string := String newline EmptyString.

(** [str(n)] for a natural number. *)
Definition of_nat (n : nat) : string :=
  NilEmpty.string_of_uint (Nat.to_uint n).

End Text.

(** ** Regular expressions: the fragment of [re] the schema is written in

    A pattern is a sequence of pieces; a piece is an anchor or a
    one-character atom under a quantifier.  [pattern_text] gives the
    pattern's source text, the string the Python code holds. *)

Module Re.
Import Text.

Inductive class_item : Type :=
| CRange (lo hi : ascii)      (* a-z *)
| CChar (c : ascii)           (* one character, escaped if special *)
| CDigit                      (* \d *)
| CSpace.                     (* \s *)

Inductive atom : Type :=
| AnyChar                     (* .   any character but a newline *)
| Lit (c : ascii)             (* one character, escaped if special *)
| Digit                       (* \d *)
| Space                       (* \s *)
| Class (items : list class_item).   (* [...] *)

Inductive quant : Type :=
| QOne                        (* no quantifier *)
| QOpt                        (* ? *)
| QStar                       (* * *)
| QPlus                       (* + *)
| QFrom (lo : nat)            (* {lo,} *)
| QBetween (lo hi : nat).     (* {lo,hi} *)

Inductive piece : Type :=
| Bol                         (* ^ *)
| Eol                         (* $ *)
| Rep (a : atom) (q : quant).

Definition regex : Type := list piece.

(** *** Source text *)

Definition one (c : ascii) : string := String c EmptyString.

Definition backslash : ascii := ascii_of_nat 92.

Definition special_in_class (c : ascii) : bool :=
  existsb (Ascii.eqb c) [backslash; "]"%char; "^"%char; "-"%char].

Definition special (c : ascii) : bool :=
  existsb (Ascii.eqb c)
    ["."%char; "^"%char; "$"%char; "*"%char; "+"%char; "?"%char; "{"%char;
     "}"%char; "["%char; "]"%char; backslash; "|"%char; "("%char; ")"%char].

Definition class_char_text (c : ascii) : string :=
  if special_in_class c then String backslash (one c) else one c.

Definition class_item_text (i : class_item) : string :=
  match i with
  | CRange lo hi => class_char_text lo ++ "-" ++ class_char_text hi
  | CChar c => class_char_text c
  | CDigit => String backslash "d"
  | CSpace => String backslash "s"
  end.

Definition atom_text (a : atom) : string :=
  match a with
  | AnyChar => "."
  | Lit c => if special c then String backslash (one c) else one c
  | Digit => String backslash "d"
  | Space => String backslash "s"
  | Class items => "[" ++ String.concat "" (map class_item_text items) ++ "]"
  end.

Definition quant_text (q : quant) : string :=
  match q with
  | QOne => ""
  | QOpt => "?"
  | QStar => "*"
  | QPlus => "+"
  | QFrom lo => "{" ++ of_nat lo ++ ",}"
  | QBetween lo hi => "{" ++ of_nat lo ++ "," ++ of_nat hi ++ "}"
  end.

Definition piece_text (p : piece) : string :=
  match p with
  | Bol => "^"
  | Eol => "$"
  | Rep a q => atom_text a ++ quant_text q
  end.

Definition pattern_text (r : regex) : string :=
  String.concat "" (map piece_text r).

(** *** Matching one character *)

Definition item_matches (i : class_item) (c : ascii) : bool :=
  match i with
  | CRange lo hi => between (code lo) (code hi) c
  | CChar x => Ascii.eqb x c
  | CDigit => isdecimal c
  | CSpace => isspace c
  end.

Definition atom_matches (a : atom) (c : ascii) : bool :=
  match a with
  | AnyChar => negb (Ascii.eqb c newline)
  | Lit x => Ascii.eqb x c
  | Digit => isdecimal c
  | Space => isspace c
  | Class items => existsb (fun i => item_matches i c) items
  end.

(** *** Quantifier bounds *)

Definition q_min (q : quant) : nat :=
  match q with
  | QOne => 1 | QOpt => 0 | QStar => 0 | QPlus => 1
  | QFrom lo => lo | QBetween lo _ => lo
  end.

Definition q_max (q : quant) : option nat :=
  match q with
  | QOne => Some 1 | QOpt => Some 1 | QStar => None | QPlus => None
  | QFrom _ => None | QBetween _ hi => Some hi
  end.

Definition below (k : nat) (m : option nat) : bool :=
  match m with None => true | Some h => (k <=? h)%nat end.

Definition q_allows (q : quant) (k : nat) : bool :=
  (q_min q <=? k)%nat && below k (q_max q).

(** *** The backtracking matcher

    [match_here r bol s] matches [r] at a position of the subject whose
    remaining text is [s]; [bol] says that the position is the start of
    the subject.  The result is the number of characters of the match the
    engine finds first (quantifiers are greedy), [None] when there is
    none. *)

(** [$] without MULTILINE: at the end, or before a newline that ends the
    subject. *)
Definition at_end (s : list ascii) : bool :=
  match s with
  | [] => true
  | [c] => Ascii.eqb c newline
  | _ => false
  end.

(** Length of the longest run of [a] at the head of [s], at most [m]. *)
Fixpoint run (a : atom) (m : option nat) (s : list ascii) : nat :=
  match s with
  | [] => 0
  | c :: s' =>
      match m with
      | Some 0 => 0
      | _ =>
          if atom_matches a c
          then S (run a (option_map Nat.pred m) s')
          else 0
      end
  end.

(** Try the counts [k], [k-1], ..., [lo] in turn. *)
Fixpoint backtrack (k lo : nat) (cont : nat -> option nat) : option nat :=
  if (k <? lo)%nat then None
  else
    match cont k with
    | Some n => Some (k + n)
    | None =>
        match k with
        | 0 => None
        | S k' => backtrack k' lo cont
        end
    end.

Fixpoint match_here (r : regex) (bol : bool) (s : list ascii) : option nat :=
  match r with
  | [] => Some 0
  | Bol :: r' => if bol then match_here r' bol s else None
  | Eol :: r' => if at_end s then match_here r' bol s else None
  | Rep a q :: r' =>
      backtrack (run a (q_max q) s) (q_min q)
        (fun k => match_here r' (bol && (k =? 0)%nat) (skipn k s))
  end.

(** [re.match(pattern, value)]: a match that starts at position 0; the
    result is where it ends. *)
Definition re_match (r : regex) (value : string) : option nat :=
  match_here r true (list_ascii_of_string value).

(** *** What it means for a pattern to match

    [Matches r bol m rest]: at a position followed by [m ++ rest] (the
    start of the subject iff [bol]), [r] matches exactly [m]. *)

Inductive Matches : regex -> bool -> list ascii -> list ascii -> Prop :=
| M_end bol rest :
    Matches [] bol [] rest
| M_bol r m rest :
    Matches r true m rest ->
    Matches (Bol :: r) true m rest
| M_eol r bol m rest :
    at_end (m ++ rest)%list = true ->
    Matches r bol m rest ->
    Matches (Eol :: r) bol m rest
| M_rep a q r bol cs m rest :
    forallb (atom_matches a) cs = true ->
    q_allows q (List.length cs) = true ->
    Matches r (bol && (List.length cs =? 0)%nat) m rest ->
    Matches (Rep a q :: r) bol (cs ++ m)%list rest.

(** Does the pattern hold an end anchor? *)
Definition has_eol (r : regex) : bool :=
  existsb (fun p => match p with Eol => true | _ => false end) r.

(** The pattern matches starting at position 0 of the value. *)
Definition matches_at_start (r : regex) (value : string) : Prop :=
  exists m rest,
    list_ascii_of_string value = (m ++ rest)%list /\ Matches r true m rest.

End Re.

(** ** JSON: [json.dumps] of the answers *)

Module Json.
Import Text.

(** The answers are a Python [dict] from field key to string; a [dict]
    keeps its keys in insertion order, and assigning to a key that is
    already there keeps the key's place. *)
Definition dict : Type := list (string * string).

Fixpoint dict_set (k v : string) (d : dict) : dict :=
  match d with
  | [] => [(k, v)]
  | (k', v') :: d' =>
      if k' =? k then (k, v) :: d' else (k', v') :: dict_set k v d'
  end.

Fixpoint dict_get (k : string) (d : dict) : option string :=
  match d with
  | [] => None
  | (k', v') :: d' => if k' =? k then Some v' else dict_get k d'
  end.

Definition keys (d : dict) : list string := map fst d.

Definition quote : string := String (ascii_of_nat 34) EmptyString.
Definition bslash : string := String (ascii_of_nat 92) EmptyString.

Definition hex_digit (n : nat) : ascii :=
  if (n <? 10)%nat then ascii_of_nat (48 + n) else ascii_of_nat (87 + n).

(** One character inside a JSON string, [ensure_ascii=False]: the quote,
    the backslash and the control characters are escaped, everything else
    is written as it is. *)
Definition escape_char (c : ascii) : string :=
  let n := code c in
  if (n =? 34)%nat then bslash ++ quote
  else if (n =? 92)%nat then bslash ++ bslash
  else if (n =? 10)%nat then bslash ++ "n"
  else if (n =? 13)%nat then bslash ++ "r"
  else if (n =? 9)%nat then bslash ++ "t"
  else if (n =? 8)%nat then bslash ++ "b"
  else if (n =? 12)%nat then bslash ++ "f"
  else if (n <? 32)%nat then
    bslash ++ "u00" ++ String (hex_digit (n / 16)) (String (hex_digit (n mod 16)) "")
  else String c "".

Fixpoint escape (s : string) : string :=
  match s with
  | EmptyString => EmptyString
  | String c s' => escape_char c ++ escape s'
  end.

Definition json_string (s : string) : string := quote ++ escape s ++ quote.

Definition json_item (kv : string * string) : string :=
  json_string (fst kv) ++ ": " ++ json_string (snd kv).

(** [json.dumps(d, ensure_ascii=False)] *)
Definition json_dumps (d : dict) : string :=
  "{" ++ String.concat ", " (map json_item d) ++ "}".

(** [json.dumps(d, ensure_ascii=False, indent=2)] *)
Definition json_dumps_indent (d : dict) : string :=
  match d with
  | [] => "{}"
  | _ =>
      "{" ++ nl ++ "  "
      ++ String.concat ("," ++ nl ++ "  ") (map json_item d)
      ++ nl ++ "}"
  end.

End Json.

(** ** The program *)

Module RegBot.
Import Text Re Json.

(** *** Data *)

(** A chat message, [{"role": ..., "content": ...}]. *)
Record message : Type := { role : string; content : string }.

(** One entry of [SCHEMA].  [help] and [validate] are read with
    [field.get], so they may be missing. *)
Record Field : Type := {
  key : string;
  question : string;
  required : bool;
  help : option string;
  validate : option regex
}.

Definition MODEL : string := "gpt-4o-mini".

Definition SYSTEM_PROMPT : string :=
  "You are RegBot, a concise, friendly English-speaking registration assistant for a brokerage." ++ nl ++
  "- Guide the user through KYC/registration step-by-step." ++ nl ++
  "- Be short, clear, neutral. Ask for missing/invalid fields if needed." ++ nl ++
  "- If user types 'help', explain ONLY the CURRENT field in simple words." ++ nl ++
  "- NEVER invent values. NEVER submit without explicit user confirmation." ++ nl ++
  "- When all required fields are collected, produce a short human summary (not JSON)." ++ nl ++
  "Language: English." ++ nl.

Definition letters : list class_item :=
  [CRange "A" "Z"; CRange "a" "z"].

(** The entries of [SCHEMA], in the order of the source. *)
Definition first_name : Field :=
  {| key := "first_name";
     question := "Please enter your First Name (as in your ID):";
     required := true;
     help := Some "Type your legal first name exactly as it appears in your ID.";
     validate := Some [Bol; Rep (Class (letters ++ [CChar "-"])) (QFrom 1); Eol] |}.

Definition last_name : Field :=
  {| key := "last_name";
     question := "Please enter your Last Name (as in your ID):";
     required := true;
     help := Some "Type your legal last name exactly as it appears in your ID. Hyphen is allowed.";
     validate := Some [Bol; Rep (Class (letters ++ [CChar "-"])) (QFrom 2); Eol] |}.

Definition country : Field :=
  {| key := "country";
     question := "Country of tax residency:";
     required := true;
     help := Some "Where you are legally required to pay taxes.";
     validate := Some [Bol; Rep (Class (letters ++ [CSpace; CChar "-"])) (QFrom 2); Eol] |}.

Definition passport_number : Field :=
  {| key := "passport_number";
     question := "Passport number (no spaces):";
     required := true;
     help := Some "Found on the photo page. Letters and digits only.";
     validate := Some [Bol; Rep (Class (letters ++ [CRange "0" "9"])) (QBetween 6 20); Eol] |}.

Definition source_of_funds : Field :=
  {| key := "source_of_funds";
     question := "Source of funds (salary/business/investments/etc.):";
     required := true;
     help := Some "Briefly and truthfully describe where your funds come from.";
     validate := Some [Bol; Rep AnyChar (QFrom 3); Eol] |}.

Definition investment_experience_years : Field :=
  {| key := "investment_experience_years";
     question := "Investment experience in years (integer, 0 if none):";
     required := false;
     help := Some "If you have no experience, enter 0.";
     validate := Some [Bol; Rep Digit (QBetween 1 2); Eol] |}.

Definition SCHEMA : list Field :=
  [first_name; last_name; country; passport_number; source_of_funds;
   investment_experience_years].

(** *** Exceptions and the world *)

Inductive exn : Type :=
| EOFError                      (* input() at the end of standard input *)
| IndexError                    (* r.choices[0] on an empty list *)
| ServiceError (msg : string).  (* any error of the client library *)

(** [str(e)] *)
Definition exn_str (e : exn) : string :=
  match e with
  | EOFError => "EOF when reading a line"
  | IndexError => "list index out of range"
  | ServiceError msg => msg
  end.

Inductive result (A : Type) : Type :=
| Ok (a : A)
| Raise (e : exn).
Arguments Ok {A} a.
Arguments Raise {A} e.

(** What [client.chat.completions.create] is called with. *)
Record request : Type := {
  req_model : string;
  req_messages : list message;
  req_temperature : nat
}.

(** What it returns: [r.choices[i].message.content] for each choice. *)
Record completion : Type := { choices : list (option string) }.

(** The service: the answer to the n-th request. *)
Definition service : Type := nat -> request -> result completion.

(** What the program printed, one event per statement executed. *)
Inductive output : Type :=
| Greeting                  (* line 139: the hello banner *)
| Prompt (text : string)    (* line 151: the prompt of input() *)
| ExitNotSaved              (* line 154: Exit. Your data is not saved. *)
| Explanation (text : string)   (* line 158: print(explain_field(field)) *)
| RequiredError             (* line 163: This field is required. ... *)
| InvalidFormat             (* line 168: Invalid format. ... *)
| SummaryHeader             (* line 178: Summary of your answers: *)
| Summary (text : string)   (* line 179: print(summarize_answers(answers)) *)
| ConfirmPrompt             (* line 181: the prompt of input() *)
| FinalHeader               (* line 183: Final JSON: *)
| FinalJson (text : string) (* line 184: print(json.dumps(answers, ...)) *)
| NothingSaved.             (* line 186: OK, cancelled. Nothing saved. *)

(** The world outside the function: what was printed, what was sent to
    the service, and which calls of [is_valid] were made. *)
Record world : Type := {
  stdout : list output;
  requests : list request;
  validated : list (string * option regex)
}.

Definition start : world :=
  {| stdout := []; requests := []; validated := [] |}.

Definition put (o : output) (w : world) : world :=
  {| stdout := (stdout w ++ [o])%list;
     requests := requests w;
     validated := validated w |}.

Definition sent (r : request) (w : world) : world :=
  {| stdout := stdout w;
     requests := (requests w ++ [r])%list;
     validated := validated w |}.

Definition checked (value : string) (pattern : option regex) (w : world) : world :=
  {| stdout := stdout w;
     requests := requests w;
     validated := (validated w ++ [(value, pattern)])%list |}.

(** Computations that act on the world and may raise. *)
Definition M (A : Type) : Type := world -> result A * world.

Definition ret {A} (a : A) : M A := fun w => (Ok a, w).

Definition raise {A} (e : exn) : M A := fun w => (Raise e, w).

Definition bind {A B} (m : M A) (f : A -> M B) : M B :=
  fun w =>
    match m w with
    | (Ok a, w') => f a w'
    | (Raise e, w') => (Raise e, w')
    end.

(** [try: body  except Exception as e: handler(e)] *)
Definition try_except {A} (body : M A) (handler : exn -> M A) : M A :=
  fun w =>
    match body w with
    | (Ok a, w') => (Ok a, w')
    | (Raise e, w') => handler e w'
    end.

Notation "x <- m ;; k" := (bind m (fun x => k))
  (at level 61, m at next level, right associativity).

(** *** The gateway *)

(** [client.chat.completions.create(model, messages, temperature)] *)
Definition create (svc : service) (req : request) : M completion :=
  fun w => (svc (List.length (requests w)) req, sent req w).

(** [r.choices[0].message.content] *)
Definition first_choice (r : completion) : M (option string) :=
  match choices r with
  | c :: _ => ret c
  | [] => raise IndexError
  end.

Definition llm (svc : service) (messages : list message) : M string :=
  let temperature := 0 in
  try_except
    (r <- create svc {| req_model := MODEL;
                        req_messages := messages;
                        req_temperature := temperature |} ;;
     c <- first_choice r ;;
     ret (strip (or_empty c)))
    (fun e => ret ("(LLM error: " ++ exn_str e ++ ")")).

(** *** Helpers *)

Definition is_valid (value : string) (pattern : option regex) : bool :=
  match pattern with
  | None => true
  | Some r =>
      if negb (truthy (pattern_text r)) then true
      else match re_match r value with Some _ => true | None => false end
  end.

Definition explain_messages (field : Field) (user_utterance : option string)
  : list message :=
  [ {| role := "system"; content := SYSTEM_PROMPT |};
    {| role := "user";
       content :=
         "Explain to the user the CURRENT form field and how to fill it correctly. "
         ++ "Be brief and practical." ++ nl
         ++ "Field question: " ++ question field ++ nl
         ++ "Hint: " ++ or_empty (help field) ++ nl
         ++ "Regex format: " ++ or_empty (option_map pattern_text (validate field)) ++ nl
         ++ "User question: " ++ or_empty user_utterance |} ]%list.

Definition explain_field (svc : service) (field : Field)
                         (user_utterance : option string) : M string :=
  llm svc (explain_messages field user_utterance).

Definition summarize_messages (answers : dict) : list message :=
  [ {| role := "system"; content := SYSTEM_PROMPT |};
    {| role := "user";
       content :=
         "Create a short, clear human summary of the registration answers for final user confirmation. "
         ++ "Do not add any new data; rephrase only." ++ nl
         ++ "Data: " ++ json_dumps answers |} ]%list.

Definition summarize_answers (svc : service) (answers : dict) : M string :=
  llm svc (summarize_messages answers).

(** *** The main loop *)

(** How a loop is left. *)
Inductive flow : Type :=
| Next (answers : dict) (dialog_ctx : list message)
      (* the loop ended; execution goes on after it *)
| Return                      (* line 155: return *)
| Raised (e : exn).           (* an exception nobody caught *)

(** The entry that line 172 appends to [dialog_ctx]. *)
Definition log_entry (field : Field) (user_input : string) : message :=
  {| role := "user"; content := question field ++ " -> " ++ user_input |}.

(** Lines 150-175: the [while True] loop of one field.  [lines] is what
    is left of standard input; the result says how the loop was left,
    what is left of standard input then, and the world. *)
Fixpoint prompting (svc : service) (field : Field)
                   (answers : dict) (dialog_ctx : list message)
                   (lines : list string) (w : world)
  : flow * list string * world :=
  let key := key field in
  let w := put (Prompt (question field ++ " ")) w in
  match lines with
  | [] => (Raised EOFError, [], w)
  | line :: lines =>
      let user_input := strip line in
      if lower user_input =? "quit" then
        (Return, lines, put ExitNotSaved w)
      else if lower user_input =? "help" then
        match explain_field svc field None w with
        | (Ok text, w) =>
            prompting svc field answers dialog_ctx lines (put (Explanation text) w)
        | (Raise e, w) => (Raised e, lines, w)
        end
      else if required field && negb (truthy user_input) then
        prompting svc field answers dialog_ctx lines (put RequiredError w)
      else
        (* [user_input and not is_valid(...)]: [is_valid] is called only
           when [user_input] is not empty *)
        let (invalid, w) :=
          if truthy user_input
          then (negb (is_valid user_input (validate field)),
                checked user_input (validate field) w)
          else (false, w) in
        if invalid then
          prompting svc field answers dialog_ctx lines (put InvalidFormat w)
        else
          (Next (dict_set key user_input answers)
                (dialog_ctx ++ [log_entry field user_input])%list,
           lines, w)
  end.

(** Lines 147-175: the [for field in SCHEMA] loop, from the field it has
    reached. *)
Fixpoint collect (svc : service) (fields : list Field)
                 (answers : dict) (dialog_ctx : list message)
                 (lines : list string) (w : world)
  : flow * list string * world :=
  match fields with
  | [] => (Next answers dialog_ctx, lines, w)
  | field :: fields' =>
      match prompting svc field answers dialog_ctx lines w with
      | (Next answers' dialog_ctx', lines', w') =>
          collect svc fields' answers' dialog_ctx' lines' w'
      | stop => stop
      end
  end.

(** How a session ends. *)
Inductive status : Type :=
| Completed                   (* the final JSON was printed *)
| Cancelled                   (* quit, or the confirmation was declined *)
| Crashed (e : exn).          (* an exception left run_registration *)

(** Lines 177-186: summary and confirmation. *)
Definition confirmation (svc : service) (answers : dict)
                        (lines : list string) (w : world)
  : status * list string * world :=
  let w := put SummaryHeader w in
  match summarize_answers svc answers w with
  | (Raise e, w) => (Crashed e, lines, w)
  | (Ok text, w) =>
      let w := put ConfirmPrompt (put (Summary text) w) in
      match lines with
      | [] => (Crashed EOFError, [], w)
      | line :: lines =>
          let confirm := lower (strip line) in
          if confirm =? "yes" then
            (Completed, lines,
             put (FinalJson (json_dumps_indent answers)) (put FinalHeader w))
          else
            (Cancelled, lines, put NothingSaved w)
      end
  end.

(** The session from the point where [fields] are still to be asked. *)
Definition session (svc : service) (fields : list Field)
                   (answers : dict) (dialog_ctx : list message)
                   (lines : list string) (w : world)
  : status * list string * world :=
  match collect svc fields answers dialog_ctx lines w with
  | (Next answers' _, lines', w') => confirmation svc answers' lines' w'
  | (Return, lines', w') => (Cancelled, lines', w')
  | (Raised e, lines', w') => (Crashed e, lines', w')
  end.

Definition run_registration (svc : service) (lines : list string)
  : status * list string * world :=
  let answers : dict := [] in
  let dialog_ctx := [ {| role := "system"; content := SYSTEM_PROMPT |} ]%list in
  session svc SCHEMA answers dialog_ctx lines (put Greeting start).

(** The records a world shows as emitted: the texts printed by line 184. *)
Fixpoint emitted_in (out : list output) : list string :=
  match out with
  | [] => []
  | FinalJson text :: out' => text :: emitted_in out'
  | _ :: out' => emitted_in out'
  end.

Definition emitted (w : world) : list string := emitted_in (stdout w).

(** *** One turn of the loop, by cases

    The five ways one line is treated by the loop of a field, in the
    order the loop tests them. *)
Inductive turn : Type :=
| TQuit                       (* line 153 *)
| THelp                       (* line 157 *)
| TRequired                   (* line 162 *)
| TInvalid                    (* line 167 *)
| TAccept.                    (* line 171 *)

Definition classify (field : Field) (line : string) : turn :=
  let user_input := strip line in
  if lower user_input =? "quit" then TQuit
  else if lower user_input =? "help" then THelp
  else if required field && negb (truthy user_input) then TRequired
  else if truthy user_input
          && negb (is_valid user_input (validate field)) then TInvalid
  else TAccept.

(** The request [llm] sends for a list of messages. *)
Definition request_of (messages : list message) : request :=
  {| req_model := MODEL; req_messages := messages; req_temperature := 0 |}.

(** The string [llm] returns when its request is the [n]-th one. *)
Definition reply (svc : service) (messages : list message) (n : nat) : string :=
  match svc n (request_of messages) with
  | Ok r =>
      match choices r with
      | c :: _ => strip (or_empty c)
      | [] => "(LLM error: " ++ exn_str IndexError ++ ")"
      end
  | Raise e => "(LLM error: " ++ exn_str e ++ ")"
  end.

(** The world after the prompt of a field was written. *)
Definition prompted (field : Field) (w : world) : world :=
  put (Prompt (question field ++ " ")) w.

(** The world after a [help] turn at a field. *)
Definition helped (svc : service) (field : Field) (w : world) : world :=
  let w1 := prompted field w in
  put (Explanation (reply svc (explain_messages field None)
                          (List.length (requests w1))))
      (sent (request_of (explain_messages field None)) w1).

(** The world after the summary was shown and the confirmation asked. *)
Definition summarized (svc : service) (answers : dict) (w : world) : world :=
  let w1 := put SummaryHeader w in
  put ConfirmPrompt
    (put (Summary (reply svc (summarize_messages answers)
                         (List.length (requests w1))))
         (sent (request_of (summarize_messages answers)) w1)).

(** The world after a line a required field rejects as empty. *)
Definition refused (field : Field) (w : world) : world :=
  put RequiredError (prompted field w).

(** The world after one line was read and treated at a field. *)
Definition after_turn (svc : service) (field : Field) (line : string)
                      (w : world) : world :=
  let user_input := strip line in
  match classify field line with
  | TQuit => put ExitNotSaved (prompted field w)
  | THelp => helped svc field w
  | TRequired => refused field w
  | TInvalid =>
      put InvalidFormat (checked user_input (validate field) (prompted field w))
  | TAccept =>
      if truthy user_input
      then checked user_input (validate field) (prompted field w)
      else prompted field w
  end.

(** A flow without its conversation log. *)
Definition without_log (f : flow) : flow :=
  match f with
  | Next answers _ => Next answers []
  | other => other
  end.

(** The result of a session with what is left of the input stripped. *)
Definition rest_stripped (r : status * list string * world)
  : status * list string * world :=
  let '(st, rest, w) := r in (st, map strip rest, w).

(** The requests the program can send: the explanation of one of the
    fields, or the summary of some answers. *)
Definition gateway_request (fields : list Field) (r : request) : Prop :=
  (exists f, In f fields /\ r = request_of (explain_messages f None)) \/
  (exists answers, r = request_of (summarize_messages answers)).

(** Two services to run the program against: one that always answers
    with the same text, one that always fails. *)
Definition canned (text : string) : service :=
  fun _ _ => Ok {| choices := [Some text] |}.

Definition failing (msg : string) : service :=
  fun _ _ => Raise (ServiceError msg).

Fixpoint iterate {A} (n : nat) (f : A -> A) (a : A) : A :=
  match n with
  | 0 => a
  | S n' => iterate n' f (f a)
  end.

(** The message lists a session sends to the gateway, in order, read off
    the loop with no conversation log at hand: at a help line the
    explanation of the field that is being asked, and when every field is
    answered the summary of the answers collected. *)
Fixpoint gateway_calls (fields : list Field) (answers : dict)
                       (lines : list string) {struct lines}
  : list (list message) :=
  match fields with
  | [] => [summarize_messages answers]
  | field :: later =>
      match lines with
      | [] => []
      | line :: rest =>
          match classify field line with
          | TQuit => []
          | THelp =>
              explain_messages field None :: gateway_calls fields answers rest
          | TAccept =>
              gateway_calls later
                (dict_set (key field) (strip line) answers) rest
          | _ => gateway_calls fields answers rest
          end
      end
  end.

(** The world after a line that the rule of the field rejects. *)
Definition rejected (field : Field) (line : string) (w : world) : world :=
  put InvalidFormat (checked (strip line) (validate field) (prompted field w)).

(** The world after a line, not empty, that the rule of the field accepts. *)
Definition accepted (field : Field) (line : string) (w : world) : world :=
  checked (strip line) (validate field) (prompted field w).

(** What the loop of a field lets through as the value of the field. *)
Definition acceptable (field : Field) (v : string) : Prop :=
  trimmed v /\
  lower v <> "quit" /\
  lower v <> "help" /\
  (required field = true -> v <> "") /\
  (v <> "" -> is_valid v (validate field) = true).

(** The events that ask for a line. *)
Definition is_prompt (o : output) : bool :=
  match o with
  | Prompt _ | ConfirmPrompt => true
  | _ => false
  end.

End RegBot.

(** * Properties *)

Import Text Re Json RegBot.

(** The double quote, the line feed and the backslash, to spell texts
    out. *)
Abbreviation dq := (String (ascii_of_nat 34) EmptyString).
Abbreviation lf := (String (ascii_of_nat 10) EmptyString).
Abbreviation bs := (String (ascii_of_nat 92) EmptyString).

(** ** Facts about [strip] *)

Section StripFacts.

Lemma last_char_cons (c : ascii) (s : string) :
  last_char (String c s) =
  match s with EmptyString => Some c | _ => last_char s end.
Proof. destruct s; reflexivity. Qed.

Lemma first_char_lstrip (s : string) (c : ascii) :
  first_char (lstrip s) = Some c -> isspace c = false.
Proof.
  induction s as [|a s IH]; simpl; [discriminate|].
  destruct (isspace a) eqn:Ha; [exact IH|].
  simpl. intros [= <-]. exact Ha.
Qed.

Lemma last_char_lstrip (s : string) (c : ascii) :
  last_char (lstrip s) = Some c -> last_char s = Some c.
Proof.
  induction s as [|a s IH]; [trivial|].
  cbn [lstrip]. destruct (isspace a); [|trivial].
  intros H. specialize (IH H). rewrite last_char_cons.
  destruct s; [discriminate IH | exact IH].
Qed.

Lemma last_char_rstrip (s : string) (c : ascii) :
  last_char (rstrip s) = Some c -> isspace c = false.
Proof.
  induction s as [|a s IH]; simpl; [discriminate|].
  destruct (rstrip s) as [|b r] eqn:Hr.
  - destruct (isspace a) eqn:Ha; simpl; [discriminate|].
    intros [= <-]. exact Ha.
  - rewrite last_char_cons. exact IH.
Qed.

Lemma lstrip_fixed (s : string) :
  (forall c, first_char s = Some c -> isspace c = false) -> lstrip s = s.
Proof.
  destruct s as [|a s]; [reflexivity|]. simpl. intros H.
  rewrite (H a eq_refl). reflexivity.
Qed.

Lemma rstrip_fixed (s : string) :
  (forall c, last_char s = Some c -> isspace c = false) -> rstrip s = s.
Proof.
  induction s as [|a s IH]; [reflexivity|].
  rewrite last_char_cons. intros H. cbn [rstrip].
  destruct s as [|b s'].
  - simpl. rewrite (H a eq_refl). reflexivity.
  - rewrite (IH H). reflexivity.
Qed.

Lemma strip_trimmed (s : string) : trimmed (strip s).
Proof.
  split; intros c H.
  - exact (first_char_lstrip _ _ H).
  - apply last_char_lstrip in H. exact (last_char_rstrip _ _ H).
Qed.

Lemma strip_fixed (s : string) : trimmed s -> strip s = s.
Proof.
  intros [Hf Hl]. unfold strip.
  rewrite (rstrip_fixed s Hl). exact (lstrip_fixed s Hf).
Qed.

Lemma strip_idempotent (s : string) : strip (strip s) = strip s.
Proof. apply strip_fixed, strip_trimmed. Qed.

Lemma rstrip_blank (s : string) :
  forallb isspace (list_ascii_of_string s) = true -> rstrip s = "".
Proof.
  induction s as [|a s IH]; [reflexivity|].
  simpl. intros H. apply andb_true_iff in H as [Ha Hs].
  rewrite (IH Hs), Ha. reflexivity.
Qed.

Lemma strip_blank (s : string) :
  forallb isspace (list_ascii_of_string s) = true -> strip s = "".
Proof. intros H. unfold strip. rewrite (rstrip_blank s H). reflexivity. Qed.

End StripFacts.

(** ** The matcher against the meaning of patterns *)

Section MatcherFacts.

Lemma backtrack_some (k lo : nat) (cont : nat -> option nat) (n : nat) :
  backtrack k lo cont = Some n ->
  exists j r, lo <= j <= k /\ cont j = Some r /\ n = j + r.
Proof.
  induction k as [|k IH]; simpl.
  - destruct lo; simpl; [|discriminate].
    destruct (cont 0) as [r|] eqn:Hc; [|discriminate].
    intros [= <-]. exists 0, r. repeat split; auto.
  - destruct (Nat.ltb_spec (S k) lo) as [Hlt|Hge]; [discriminate|].
    destruct (cont (S k)) as [r|] eqn:Hc.
    + intros [= <-]. exists (S k), r. repeat split; auto.
    + intros H. destruct (IH H) as (j & r & Hj & Hr & Hn).
      exists j, r. repeat split; auto; lia.
Qed.

Lemma backtrack_none (k lo : nat) (cont : nat -> option nat) :
  backtrack k lo cont = None ->
  forall j, lo <= j <= k -> cont j = None.
Proof.
  induction k as [|k IH]; simpl; intros H j Hj.
  - assert (j = 0) by lia. subst j.
    destruct lo; [|lia]. simpl in H.
    destruct (cont 0); [discriminate | reflexivity].
  - destruct (Nat.ltb_spec (S k) lo) as [Hlt|Hge]; [lia|].
    destruct (cont (S k)) as [r|] eqn:Hc; [discriminate|].
    destruct (Nat.eq_dec j (S k)) as [->|Hne]; [exact Hc|].
    apply IH; [exact H | lia].
Qed.

Lemma run_below (a : atom) (m : option nat) (s : list ascii) :
  below (run a m s) m = true.
Proof.
  revert m. induction s as [|c s IH]; intros m.
  - destruct m; simpl; auto.
  - destruct m as [[|h]|]; simpl; auto;
      destruct (atom_matches a c); simpl; auto.
    exact (IH (Some h)).
Qed.

Lemma run_prefix (a : atom) (m : option nat) (s : list ascii) (j : nat) :
  j <= run a m s ->
  forallb (atom_matches a) (firstn j s) = true /\ j <= List.length s.
Proof.
  revert m j. induction s as [|c s IH]; intros m j Hj.
  - simpl in Hj. assert (j = 0) by lia. subst. simpl. auto.
  - destruct j as [|j]; [simpl; split; [reflexivity | lia]|].
    simpl in Hj.
    assert (Hm : atom_matches a c = true /\
                 j <= run a (option_map Nat.pred m) s).
    { destruct m as [[|h]|]; [lia | |];
        destruct (atom_matches a c); (split; [reflexivity || lia | lia]). }
    destruct Hm as [Hc Hr]. destruct (IH _ _ Hr) as [Hall Hlen].
    simpl. rewrite Hc, Hall. split; [reflexivity | lia].
Qed.

Lemma run_reaches (a : atom) (m : option nat) (cs rest : list ascii) :
  forallb (atom_matches a) cs = true ->
  below (List.length cs) m = true ->
  List.length cs <= run a m (cs ++ rest).
Proof.
  revert m. induction cs as [|c cs IH]; intros m Hall Hm; simpl; [lia|].
  simpl in Hall. apply andb_true_iff in Hall as [Hc Hall].
  destruct m as [[|h]|]; simpl in Hm.
  - discriminate.
  - rewrite Hc. apply le_n_S. apply IH; [exact Hall|].
    simpl. apply Nat.leb_le. apply Nat.leb_le in Hm. lia.
  - rewrite Hc. apply le_n_S. apply IH; [exact Hall | reflexivity].
Qed.

Lemma firstn_plus {A} (j r : nat) (s : list A) :
  firstn (j + r) s = (firstn j s ++ firstn r (skipn j s))%list.
Proof.
  revert s. induction j as [|j IH]; intros s; simpl; [reflexivity|].
  destruct s as [|x s]; simpl.
  - destruct r; reflexivity.
  - rewrite IH. reflexivity.
Qed.

Lemma skipn_plus {A} (j r : nat) (s : list A) :
  skipn (j + r) s = skipn r (skipn j s).
Proof.
  revert s. induction j as [|j IH]; intros s; simpl; [reflexivity|].
  destruct s as [|x s]; simpl; [destruct r; reflexivity | apply IH].
Qed.

(** What the matcher finds is a match. *)
Lemma match_here_sound (r : regex) :
  forall bol s n,
    match_here r bol s = Some n ->
    Matches r bol (firstn n s) (skipn n s).
Proof.
  induction r as [|p r IH]; intros bol s n H.
  - simpl in H. injection H as <-. simpl. constructor.
  - destruct p as [| |a q]; simpl in H.
    + destruct bol; [|discriminate]. constructor. apply IH, H.
    + destruct (at_end s) eqn:He; [|discriminate].
      constructor; [rewrite firstn_skipn; exact He | apply IH, H].
    + apply backtrack_some in H as (j & k & Hj & Hk & ->).
      destruct (run_prefix a (q_max q) s j) as [Hall Hlen]; [lia|].
      assert (Hlj : List.length (firstn j s) = j)
        by (rewrite length_firstn; lia).
      rewrite firstn_plus, skipn_plus.
      apply M_rep.
      * exact Hall.
      * rewrite Hlj. unfold q_allows. apply andb_true_iff. split.
        -- apply Nat.leb_le. lia.
        -- pose proof (run_below a (q_max q) s) as Hb.
           destruct (q_max q) as [h|]; simpl in *; [|reflexivity].
           apply Nat.leb_le. apply Nat.leb_le in Hb. lia.
      * rewrite Hlj. apply IH, Hk.
Qed.

(** Where there is a match the matcher finds one. *)
Lemma match_here_complete (r : regex) (bol : bool) (m rest : list ascii) :
  Matches r bol m rest ->
  exists n, match_here r bol (m ++ rest) = Some n.
Proof.
  induction 1 as [bol rest | r m rest _ IH | r bol m rest He _ IH
                 | a q r bol cs m rest Hall Hq _ IH].
  - exists 0. reflexivity.
  - exact IH.
  - simpl. rewrite He. exact IH.
  - simpl. unfold q_allows in Hq. apply andb_true_iff in Hq as [Hlo Hhi].
    apply Nat.leb_le in Hlo.
    pose proof (run_reaches a (q_max q) cs (m ++ rest) Hall Hhi) as Hrun.
    rewrite <- app_assoc.
    destruct (backtrack _ _ _) as [n|] eqn:Hb; [exists n; reflexivity|].
    exfalso.
    pose proof (backtrack_none _ _ _ Hb (List.length cs)
                  (conj Hlo Hrun)) as Hnone.
    cbv beta in Hnone. rewrite skipn_app, skipn_all, Nat.sub_diag in Hnone.
    simpl in Hnone. destruct IH as [n Hn]. congruence.
Qed.

(** [re.match] returns a match exactly when the pattern matches at
    position 0. *)
Lemma re_match_iff (r : regex) (value : string) :
  (exists n, re_match r value = Some n) <-> matches_at_start r value.
Proof.
  unfold re_match, matches_at_start. split.
  - intros [n Hn]. apply match_here_sound in Hn.
    exists (firstn n (list_ascii_of_string value)),
           (skipn n (list_ascii_of_string value)).
    split; [symmetry; apply firstn_skipn | exact Hn].
  - intros (m & rest & Hv & Hm). rewrite Hv.
    exact (match_here_complete _ _ _ _ Hm).
Qed.

End MatcherFacts.

(** ** The validator *)

Section ValidatorFacts.

Lemma list_of_append (s t : string) :
  list_ascii_of_string (s ++ t)
  = (list_ascii_of_string s ++ list_ascii_of_string t)%list.
Proof. induction s as [|c s IH]; simpl; [reflexivity | now rewrite IH]. Qed.

Lemma length_of_list (s : string) :
  List.length (list_ascii_of_string s) = String.length s.
Proof. induction s as [|c s IH]; simpl; [reflexivity | now rewrite IH]. Qed.

Lemma list_of_string_inj (s t : string) :
  list_ascii_of_string s = list_ascii_of_string t -> s = t.
Proof.
  intros H. rewrite <- (string_of_list_ascii_of_string s),
    <- (string_of_list_ascii_of_string t), H. reflexivity.
Qed.

Lemma is_valid_re_match (r : regex) (value : string) :
  pattern_text r <> "" ->
  is_valid value (Some r) = true <-> exists n, re_match r value = Some n.
Proof.
  intros Ht. unfold is_valid.
  destruct (pattern_text r) eqn:Hp; [contradiction|]. simpl.
  destruct (re_match r value) as [n|]; split; intros H; try discriminate.
  - exists n; reflexivity.
  - reflexivity.
  - destruct H as [n Hn]. discriminate.
Qed.

Lemma is_valid_iff (r : regex) (value : string) :
  pattern_text r <> "" ->
  is_valid value (Some r) = true <-> matches_at_start r value.
Proof.
  intros Ht. rewrite (is_valid_re_match r value Ht). apply re_match_iff.
Qed.

(** Without an end anchor a match does not look at what follows it. *)
Lemma Matches_extend (r : regex) (bol : bool) (m rest : list ascii) :
  Matches r bol m rest ->
  has_eol r = false ->
  forall extra, Matches r bol m (rest ++ extra).
Proof.
  induction 1 as [bol rest | r m rest _ IH | r bol m rest He _ IH
                 | a q r bol cs m rest Hall Hq _ IH]; intros Hno extra.
  - constructor.
  - constructor. apply IH, Hno.
  - discriminate Hno.
  - constructor; [exact Hall | exact Hq | apply IH, Hno].
Qed.

Lemma prefix_match_without_eol (r : regex) (value extra : string) :
  pattern_text r <> "" ->
  has_eol r = false ->
  is_valid value (Some r) = true ->
  is_valid (value ++ extra) (Some r) = true.
Proof.
  intros Ht Hno Hv. apply (is_valid_iff r _ Ht).
  apply (is_valid_iff r _ Ht) in Hv. destruct Hv as (m & rest & Hv & Hm).
  exists m, (rest ++ list_ascii_of_string extra)%list. split.
  - rewrite list_of_append, Hv, app_assoc. reflexivity.
  - apply Matches_extend; assumption.
Qed.

Lemma at_end_cases (s : list ascii) :
  at_end s = true -> s = []%list \/ s = [newline]%list.
Proof.
  destruct s as [|c [|d s]]; simpl; intros H; try discriminate; auto.
  apply Ascii.eqb_eq in H. subst. auto.
Qed.

Lemma anchored_text (a : atom) (q : quant) :
  pattern_text [Bol; Rep a q; Eol] <> "".
Proof. unfold pattern_text. simpl. discriminate. Qed.

(** A rule of the shape [^atom{..}$] accepts a value exactly when the
    whole value, up to one final newline, is a run of the atom of an
    allowed length. *)
Lemma anchored_whole_value (a : atom) (q : quant) (value : string) :
  is_valid value (Some [Bol; Rep a q; Eol]) = true <->
  exists body,
    (value = body \/ value = body ++ nl) /\
    forallb (atom_matches a) (list_ascii_of_string body) = true /\
    q_allows q (String.length body) = true.
Proof.
  rewrite (is_valid_iff _ value (anchored_text a q)). split.
  - intros (m & rest & Hv & Hm).
    inversion Hm as [| r0 m0 rest0 Hm1 | |]; subst.
    inversion Hm1 as [| | | a0 q0 r0 bol0 cs m0 rest0 Hall Hq Hm2]; subst.
    inversion Hm2 as [| | r0 bol0 m1 rest1 He Hm3 |]; subst.
    inversion Hm3; subst. simpl in He. rewrite app_nil_r in Hv.
    exists (string_of_list_ascii cs).
    rewrite list_ascii_of_string_of_list_ascii.
    rewrite <- length_of_list, list_ascii_of_string_of_list_ascii.
    split; [|split; assumption].
    destruct (at_end_cases _ He) as [-> | ->].
    + left. apply list_of_string_inj.
      rewrite Hv, app_nil_r, list_ascii_of_string_of_list_ascii. reflexivity.
    + right. apply list_of_string_inj.
      rewrite Hv, list_of_append, list_ascii_of_string_of_list_ascii.
      reflexivity.
  - intros (body & Hv & Hall & Hq).
    exists (list_ascii_of_string body),
           (if String.eqb value body then [] else [newline])%list.
    assert (Hrest : at_end (if String.eqb value body
                            then [] else [newline])%list = true).
    { destruct (String.eqb value body); reflexivity. }
    split.
    + destruct Hv as [-> | ->].
      * rewrite String.eqb_refl, app_nil_r. reflexivity.
      * destruct (String.eqb_spec (body ++ nl) body) as [He|_].
        -- apply (f_equal String.length) in He.
           rewrite <- !length_of_list, list_of_append, length_app in He.
           simpl in He. lia.
        -- apply list_of_append.
    + constructor.
      rewrite <- (app_nil_r (list_ascii_of_string body)).
      constructor; [exact Hall | rewrite length_of_list; exact Hq |].
      constructor; [exact Hrest | constructor].
Qed.

End ValidatorFacts.

Section ValidatorClaims.

(** C3, as the specification states it, fails: trailing content after a
    prefix that the rule accepts does cause rejection.  The rule of the
    passport number accepts [AB1234] and rejects [AB1234!], because the
    rule ends in [$]. *)
Lemma trailing_content_can_reject :
  ~ (forall (r : regex) (value extra : string),
        pattern_text r <> "" ->
        is_valid value (Some r) = true ->
        is_valid (value ++ extra) (Some r) = true).
Proof.
  intros H.
  destruct (validate passport_number) as [rule|] eqn:Hrule; [|discriminate].
  injection Hrule as Hrule.
  specialize (H rule "AB1234" "!").
  assert (Hfalse : is_valid ("AB1234" ++ "!") (Some rule) = false)
    by (subst rule; vm_compute; reflexivity).
  rewrite H in Hfalse; [discriminate | subst rule; vm_compute; discriminate
                       | subst rule; vm_compute; reflexivity].
Qed.

(** C3 (amended).  The validator accepts a value under a non-empty
    pattern exactly when the pattern matches starting at position 0 of the
    value.  Trailing content after the matched prefix does not cause
    rejection when the pattern has no end anchor [$]; every rule of the
    schema has the shape [^atom{..}$], and such a rule accepts a value
    exactly when the whole value (up to one final newline) is a run of
    the atom of an allowed length.  The value [AB12345extra] is accepted
    by the rule of 6 to 20 alphanumeric characters: it is 12 alphanumeric
    characters. *)
Theorem validator_accepts_matches_from_start :
  (forall (r : regex) (value : string),
      pattern_text r <> "" ->
      (is_valid value (Some r) = true <-> matches_at_start r value)) /\
  (forall (r : regex) (value extra : string),
      pattern_text r <> "" ->
      has_eol r = false ->
      is_valid value (Some r) = true ->
      is_valid (value ++ extra) (Some r) = true) /\
  (forall (a : atom) (q : quant) (value : string),
      is_valid value (Some [Bol; Rep a q; Eol]) = true <->
      exists body,
        (value = body \/ value = body ++ nl) /\
        forallb (atom_matches a) (list_ascii_of_string body) = true /\
        q_allows q (String.length body) = true) /\
  Forall (fun f => exists a q, validate f = Some [Bol; Rep a q; Eol]) SCHEMA /\
  In passport_number SCHEMA /\
  option_map pattern_text (validate passport_number)
  = Some ("^[A-Za-z0-9]{6,20}$") /\
  is_valid "AB12345extra" (validate passport_number) = true /\
  is_valid "AB1234" (validate passport_number) = true /\
  is_valid "AB1234!" (validate passport_number) = false.
Proof.
  split; [exact is_valid_iff|].
  split; [exact prefix_match_without_eol|].
  split; [exact anchored_whole_value|].
  split.
  - repeat constructor; eexists; eexists; reflexivity.
  - split; [simpl; tauto|]. repeat split; vm_compute; reflexivity.
Qed.

(** The amended claim at concrete inputs: an unanchored rule of 6 to 20
    alphanumeric characters accepts [AB1234] and anything that extends
    it. *)
Lemma validator_accepts_matches_from_start_witness :
  let r := [Rep (Class (letters ++ [CRange "0" "9"])) (QBetween 6 20)]%list in
  (is_valid "AB1234" (Some r) = true <-> matches_at_start r "AB1234") /\
  is_valid ("AB1234" ++ "!") (Some r) = true.
Proof.
  intros r.
  destruct validator_accepts_matches_from_start as (Hiff & Hext & _).
  split.
  - apply Hiff. vm_compute. discriminate.
  - apply Hext.
    + vm_compute. discriminate.
    + reflexivity.
    + vm_compute. reflexivity.
Defined.

End ValidatorClaims.

(** ** The gateway *)

Section GatewayFacts.

Variable svc : service.

(** [llm] always returns: the reply the service gave, or the placeholder
    that describes the error. *)
Lemma llm_run (messages : list message) (w : world) :
  llm svc messages w
  = (Ok (reply svc messages (List.length (requests w))),
     sent (request_of messages) w).
Proof.
  unfold llm, try_except, bind, create, first_choice, reply, request_of, ret.
  destruct (svc _ _) as [r|e]; [|reflexivity].
  destruct (choices r) as [|c cs]; reflexivity.
Qed.

Lemma explain_field_run (field : Field) (u : option string) (w : world) :
  explain_field svc field u w
  = (Ok (reply svc (explain_messages field u) (List.length (requests w))),
     sent (request_of (explain_messages field u)) w).
Proof. apply llm_run. Qed.

Lemma summarize_answers_run (answers : dict) (w : world) :
  summarize_answers svc answers w
  = (Ok (reply svc (summarize_messages answers) (List.length (requests w))),
     sent (request_of (summarize_messages answers)) w).
Proof. apply llm_run. Qed.

End GatewayFacts.

(** ** One turn of the loop *)

Section TurnFacts.

Variable svc : service.

Lemma prompting_nil (field : Field) (answers : dict) (ctx : list message)
                    (w : world) :
  prompting svc field answers ctx [] w = (Raised EOFError, [], prompted field w).
Proof. reflexivity. Qed.

(** The loop of a field, unfolded by one line. *)
Lemma prompting_step (field : Field) (answers : dict) (ctx : list message)
                     (line : string) (rest : list string) (w : world) :
  prompting svc field answers ctx (line :: rest) w
  = match classify field line with
    | TQuit => (Return, rest, after_turn svc field line w)
    | TAccept =>
        (Next (dict_set (key field) (strip line) answers)
              (ctx ++ [log_entry field (strip line)])%list,
         rest, after_turn svc field line w)
    | _ => prompting svc field answers ctx rest (after_turn svc field line w)
    end.
Proof.
  unfold after_turn, classify. cbn [prompting].
  destruct (lower (strip line) =? "quit"); [reflexivity|].
  destruct (lower (strip line) =? "help").
  { rewrite explain_field_run. reflexivity. }
  destruct (required field && negb (truthy (strip line))); [reflexivity|].
  destruct (truthy (strip line)); [|reflexivity].
  destruct (is_valid (strip line) (validate field)); reflexivity.
Qed.

Lemma classify_strip (field : Field) (line : string) :
  classify field (strip line) = classify field line.
Proof. unfold classify. rewrite strip_idempotent. reflexivity. Qed.

Lemma after_turn_strip (field : Field) (line : string) (w : world) :
  after_turn svc field (strip line) w = after_turn svc field line w.
Proof.
  unfold after_turn. rewrite classify_strip, strip_idempotent. reflexivity.
Qed.

Lemma classify_quit (field : Field) (line : string) :
  lower (strip line) = "quit" -> classify field line = TQuit.
Proof. unfold classify. intros ->. reflexivity. Qed.

Lemma classify_help (field : Field) (line : string) :
  lower (strip line) = "help" -> classify field line = THelp.
Proof. unfold classify. intros ->. reflexivity. Qed.

Lemma classify_empty (field : Field) (line : string) :
  strip line = "" ->
  classify field line = if required field then TRequired else TAccept.
Proof. unfold classify. intros ->. destruct (required field); reflexivity. Qed.

Lemma confirmation_run (answers : dict) (lines : list string) (w : world) :
  confirmation svc answers lines w
  = match lines with
    | [] => (Crashed EOFError, [], summarized svc answers w)
    | line :: rest =>
        if lower (strip line) =? "yes" then
          (Completed, rest,
           put (FinalJson (json_dumps_indent answers))
               (put FinalHeader (summarized svc answers w)))
        else (Cancelled, rest, put NothingSaved (summarized svc answers w))
    end%list.
Proof.
  unfold confirmation. rewrite summarize_answers_run.
  destruct lines; reflexivity.
Qed.

Lemma session_step (field : Field) (later : list Field) (answers : dict)
                   (ctx : list message) (line : string) (rest : list string)
                   (w : world) :
  session svc (field :: later) answers ctx (line :: rest) w
  = match classify field line with
    | TQuit => (Cancelled, rest, after_turn svc field line w)
    | TAccept =>
        session svc later (dict_set (key field) (strip line) answers)
                (ctx ++ [log_entry field (strip line)])%list
                rest (after_turn svc field line w)
    | _ => session svc (field :: later) answers ctx rest
             (after_turn svc field line w)
    end.
Proof.
  unfold session. cbn [collect]. rewrite prompting_step.
  destruct (classify field line); reflexivity.
Qed.

Lemma session_eof (field : Field) (later : list Field) (answers : dict)
                  (ctx : list message) (w : world) :
  session svc (field :: later) answers ctx [] w
  = (Crashed EOFError, [], prompted field w).
Proof. reflexivity. Qed.

Lemma session_confirm (answers : dict) (ctx : list message)
                      (lines : list string) (w : world) :
  session svc [] answers ctx lines w = confirmation svc answers lines w.
Proof. reflexivity. Qed.

End TurnFacts.

(** ** What a turn does to the world *)

Section WorldFacts.

Variable svc : service.

Lemma emitted_in_app (xs ys : list output) :
  emitted_in (xs ++ ys) = (emitted_in xs ++ emitted_in ys)%list.
Proof.
  induction xs as [|x xs IH]; [reflexivity|].
  destruct x; simpl; rewrite IH; reflexivity.
Qed.

Lemma emitted_put (o : output) (w : world) :
  emitted (put o w)
  = (emitted w ++ match o with FinalJson text => [text] | _ => [] end)%list.
Proof.
  unfold emitted, put. simpl. rewrite emitted_in_app.
  destruct o; reflexivity.
Qed.

Lemma emitted_prompted (field : Field) (w : world) :
  emitted (prompted field w) = emitted w.
Proof. unfold prompted. rewrite emitted_put. apply app_nil_r. Qed.

Lemma emitted_helped (field : Field) (w : world) :
  emitted (helped svc field w) = emitted w.
Proof.
  unfold helped. rewrite emitted_put, app_nil_r.
  unfold emitted, sent. simpl. apply emitted_prompted.
Qed.

Lemma emitted_after_turn (field : Field) (line : string) (w : world) :
  emitted (after_turn svc field line w) = emitted w.
Proof.
  unfold after_turn, refused.
  destruct (classify field line); try destruct (truthy (strip line));
    rewrite ?emitted_put, ?app_nil_r;
    try apply emitted_helped; try apply emitted_prompted;
    unfold emitted, checked; simpl; apply emitted_prompted.
Qed.

Lemma emitted_summarized (answers : dict) (w : world) :
  emitted (summarized svc answers w) = emitted w.
Proof.
  unfold summarized. rewrite !emitted_put, !app_nil_r.
  unfold emitted, sent. simpl. rewrite emitted_in_app. apply app_nil_r.
Qed.

Lemma stdout_summarized (answers : dict) (w : world) :
  stdout (summarized svc answers w)
  = (stdout w ++ [SummaryHeader;
                  Summary (reply svc (summarize_messages answers)
                                 (List.length (requests w)));
                  ConfirmPrompt])%list.
Proof. unfold summarized. simpl. rewrite <- !app_assoc. reflexivity. Qed.

Lemma requests_summarized (answers : dict) (w : world) :
  requests (summarized svc answers w)
  = (requests w ++ [request_of (summarize_messages answers)])%list.
Proof. reflexivity. Qed.

Lemma stdout_helped (field : Field) (w : world) :
  stdout (helped svc field w)
  = (stdout w ++ [Prompt (question field ++ " ");
                  Explanation (reply svc (explain_messages field None)
                                     (List.length (requests w)))])%list.
Proof. unfold helped. simpl. rewrite <- app_assoc. reflexivity. Qed.

Lemma requests_helped (field : Field) (w : world) :
  requests (helped svc field w)
  = (requests w ++ [request_of (explain_messages field None)])%list.
Proof. reflexivity. Qed.

Lemma requests_iterate_helped (field : Field) (n : nat) (w : world) :
  requests (iterate n (helped svc field) w)
  = (requests w ++ repeat (request_of (explain_messages field None)) n)%list.
Proof.
  revert w. induction n as [|n IH]; intros w; simpl.
  - symmetry. apply app_nil_r.
  - rewrite IH, requests_helped, <- app_assoc. reflexivity.
Qed.

Lemma stdout_refused (field : Field) (w : world) :
  stdout (refused field w)
  = (stdout w ++ [Prompt (question field ++ " "); RequiredError])%list.
Proof. unfold refused. simpl. rewrite <- app_assoc. reflexivity. Qed.

(** Only a completed session prints a record, and it prints one. *)
Lemma session_emitted (lines : list string) :
  forall (fields : list Field) (answers : dict) (ctx : list message)
         (w : world),
    match session svc fields answers ctx lines w with
    | (Completed, _, w') =>
        exists final, emitted w' = (emitted w ++ [json_dumps_indent final])%list
    | (_, _, w') => emitted w' = emitted w
    end.
Proof.
  assert (Hconf : forall answers ctx lines w,
             match session svc [] answers ctx lines w with
             | (Completed, _, w') =>
                 exists final,
                   emitted w' = (emitted w ++ [json_dumps_indent final])%list
             | (_, _, w') => emitted w' = emitted w
             end).
  { intros answers ctx ls w. rewrite session_confirm, confirmation_run.
    destruct ls as [|line rest]; [apply emitted_summarized|].
    destruct (lower (strip line) =? "yes").
    - exists answers.
      rewrite !emitted_put, app_nil_r, emitted_summarized. reflexivity.
    - rewrite emitted_put, app_nil_r. apply emitted_summarized. }
  induction lines as [|line rest IH]; intros [|field later] answers ctx w;
    try apply Hconf.
  - rewrite session_eof. apply emitted_prompted.
  - rewrite session_step.
    pose proof (emitted_after_turn field line w) as Hw.
    destruct (classify field line); try (rewrite <- Hw; apply IH).
    exact Hw.
Qed.

End WorldFacts.

(** ** The text of a record *)

Section RecordText.

Lemma append_assoc (a b c : string) : (a ++ b) ++ c = a ++ (b ++ c).
Proof. induction a as [|x a IH]; simpl; congruence. Qed.

Lemma escape_char_plain (c : ascii) :
  (32 <=? nat_of_ascii c)%nat
  && negb (nat_of_ascii c =? 34)%nat
  && negb (nat_of_ascii c =? 92)%nat = true ->
  escape_char c = String c "".
Proof.
  intros H. apply andb_true_iff in H as [H H92].
  apply andb_true_iff in H as [H32 H34].
  apply Nat.leb_le in H32. apply negb_true_iff in H34, H92.
  unfold escape_char, code. rewrite H34, H92.
  repeat match goal with
         | |- context [(?a =? ?b)%nat] =>
             destruct (Nat.eqb_spec a b); [lia|]
         end.
  destruct (Nat.ltb_spec (nat_of_ascii c) 32); [lia | reflexivity].
Qed.

(** A string without quote, backslash and control characters is written
    as it is. *)
Lemma escape_plain (s : string) :
  forallb (fun c => (32 <=? nat_of_ascii c)%nat
                    && negb (nat_of_ascii c =? 34)%nat
                    && negb (nat_of_ascii c =? 92)%nat)
          (list_ascii_of_string s) = true ->
  escape s = s.
Proof.
  induction s as [|c s IH]; [reflexivity|].
  simpl. intros H. apply andb_true_iff in H as [Hc Hs].
  rewrite (escape_char_plain c Hc), (IH Hs). reflexivity.
Qed.

(** The text of a record, character by character: an object with one
    line per item, every key and value between double quotes. *)
Lemma record_text (final : dict) :
  json_dumps_indent final
  = match final with
    | [] => "{}"
    | _ => "{" ++ lf ++ "  "
           ++ String.concat ("," ++ lf ++ "  ")
                (map (fun kv => (dq ++ escape (fst kv) ++ dq) ++ ": "
                                ++ (dq ++ escape (snd kv) ++ dq)) final)
           ++ lf ++ "}"
    end.
Proof. destruct final; reflexivity. Qed.

(** The text of a record of the schema. *)
Lemma schema_record_text (v1 v2 v3 v4 v5 v6 : string) :
  json_dumps_indent
    [("first_name", v1); ("last_name", v2); ("country", v3);
     ("passport_number", v4); ("source_of_funds", v5);
     ("investment_experience_years", v6)]
  = String.concat ""
      ["{"; lf;
       "  "; dq; "first_name"; dq; ": "; dq; escape v1; dq; ","; lf;
       "  "; dq; "last_name"; dq; ": "; dq; escape v2; dq; ","; lf;
       "  "; dq; "country"; dq; ": "; dq; escape v3; dq; ","; lf;
       "  "; dq; "passport_number"; dq; ": "; dq; escape v4; dq; ","; lf;
       "  "; dq; "source_of_funds"; dq; ": "; dq; escape v5; dq; ","; lf;
       "  "; dq; "investment_experience_years"; dq; ": "; dq; escape v6; dq; lf;
       "}"].
Proof.
  unfold json_dumps_indent, json_item, json_string.
  cbn [map fst snd String.concat].
  rewrite !append_assoc. reflexivity.
Qed.

End RecordText.

(** ** The controller: quit, help, empty input, confirmation *)

Section ControllerClaims.

Variable svc : service.

(** C4.  At every field, whatever was collected so far, a line that after
    stripping is [quit] in any letter case ends the session as Cancelled:
    the rest of the input is left unread, only the prompt and the exit
    message are printed, no request is sent and no record is emitted. *)
Theorem quit_cancels_session
    (field : Field) (later : list Field) (answers : dict)
    (ctx : list message) (line : string) (rest : list string) (w : world) :
  lower (strip line) = "quit" ->
  exists w',
    session svc (field :: later) answers ctx (line :: rest) w
    = (Cancelled, rest, w') /\
    stdout w' = (stdout w ++ [Prompt (question field ++ " "); ExitNotSaved])%list /\
    requests w' = requests w /\
    validated w' = validated w /\
    emitted w' = emitted w.
Proof.
  intros Hq. exists (put ExitNotSaved (prompted field w)).
  rewrite session_step, (classify_quit field line Hq).
  unfold after_turn. rewrite (classify_quit field line Hq).
  repeat split.
  - simpl. rewrite <- app_assoc. reflexivity.
  - rewrite emitted_put, app_nil_r. apply emitted_prompted.
Qed.

(** C5.  At every field a line that after stripping is [help] in any
    letter case sends exactly one request, the explanation of that field,
    and prints the reply; the session then goes on from the same field with
    the same answers and the same conversation log.  The same holds for any
    number of such lines in a row. *)
Theorem help_keeps_state
    (field : Field) (later : list Field) (answers : dict)
    (ctx : list message) (w : world) :
  (forall line rest,
      lower (strip line) = "help" ->
      session svc (field :: later) answers ctx (line :: rest) w
      = session svc (field :: later) answers ctx rest (helped svc field w) /\
      prompting svc field answers ctx (line :: rest) w
      = prompting svc field answers ctx rest (helped svc field w)) /\
  requests (helped svc field w)
  = (requests w ++ [request_of (explain_messages field None)])%list /\
  stdout (helped svc field w)
  = (stdout w ++ [Prompt (question field ++ " ");
                  Explanation (reply svc (explain_messages field None)
                                     (List.length (requests w)))])%list /\
  validated (helped svc field w) = validated w /\
  emitted (helped svc field w) = emitted w /\
  (forall helps rest,
      Forall (fun line => lower (strip line) = "help") helps ->
      session svc (field :: later) answers ctx (helps ++ rest) w
      = session svc (field :: later) answers ctx rest
          (iterate (List.length helps) (helped svc field) w)) /\
  (forall n,
      requests (iterate n (helped svc field) w)
      = (requests w ++ repeat (request_of (explain_messages field None)) n)%list).
Proof.
  split; [|split; [|split; [|split; [|split; [|split]]]]].
  - intros line rest Hh. split.
    + rewrite session_step, (classify_help field line Hh).
      unfold after_turn. rewrite (classify_help field line Hh). reflexivity.
    + rewrite prompting_step, (classify_help field line Hh).
      unfold after_turn. rewrite (classify_help field line Hh). reflexivity.
  - apply requests_helped.
  - apply stdout_helped.
  - reflexivity.
  - apply emitted_helped.
  - intros helps rest Hall. revert w.
    induction Hall as [|line helps Hh _ IH]; intros w'; [reflexivity|].
    cbn [app List.length iterate].
    rewrite session_step, (classify_help field line Hh).
    unfold after_turn. rewrite (classify_help field line Hh). apply IH.
  - intros n. apply requests_iterate_helped.
Qed.

(** C6.  At a required field a line that is empty after stripping never
    advances the controller: the error is printed, [is_valid] is not
    called, no request is sent, and the session goes on from the same field
    with the same answers.  However many such lines follow one another the
    field stays the same, and when nothing else follows the session ends at
    that field. *)
Theorem required_empty_never_advances
    (field : Field) (later : list Field) (answers : dict)
    (ctx : list message) (w : world) :
  required field = true ->
  (forall line rest,
      strip line = "" ->
      session svc (field :: later) answers ctx (line :: rest) w
      = session svc (field :: later) answers ctx rest (refused field w) /\
      prompting svc field answers ctx (line :: rest) w
      = prompting svc field answers ctx rest (refused field w)) /\
  stdout (refused field w)
  = (stdout w ++ [Prompt (question field ++ " "); RequiredError])%list /\
  validated (refused field w) = validated w /\
  requests (refused field w) = requests w /\
  (forall blanks rest,
      Forall (fun line => strip line = "") blanks ->
      session svc (field :: later) answers ctx (blanks ++ rest) w
      = session svc (field :: later) answers ctx rest
          (iterate (List.length blanks) (refused field) w)) /\
  (forall blanks,
      Forall (fun line => strip line = "") blanks ->
      session svc (field :: later) answers ctx blanks w
      = (Crashed EOFError, [],
         prompted field (iterate (List.length blanks) (refused field) w))).
Proof.
  intros Hreq.
  assert (Hstep : forall line rest w0,
             strip line = "" ->
             session svc (field :: later) answers ctx (line :: rest) w0
             = session svc (field :: later) answers ctx rest (refused field w0)).
  { intros line rest w0 He.
    rewrite session_step, (classify_empty field line He), Hreq.
    unfold after_turn. rewrite (classify_empty field line He), Hreq.
    reflexivity. }
  assert (Hmany : forall blanks rest,
             Forall (fun line => strip line = "") blanks ->
             forall w0,
               session svc (field :: later) answers ctx (blanks ++ rest) w0
               = session svc (field :: later) answers ctx rest
                   (iterate (List.length blanks) (refused field) w0)).
  { intros blanks rest Hall.
    induction Hall as [|line blanks He _ IH]; intros w0; [reflexivity|].
    cbn [app List.length iterate]. rewrite (Hstep _ _ _ He). apply IH. }
  split; [|split; [|split; [|split; [|split]]]].
  - intros line rest He. split; [apply Hstep, He|].
    rewrite prompting_step, (classify_empty field line He), Hreq.
    unfold after_turn. rewrite (classify_empty field line He), Hreq.
    reflexivity.
  - apply stdout_refused.
  - reflexivity.
  - reflexivity.
  - intros blanks rest Hall. apply Hmany, Hall.
  - intros blanks Hall.
    rewrite <- (app_nil_r blanks) at 1. rewrite (Hmany _ _ Hall).
    apply session_eof.
Qed.

(** C7.  When every field is answered the summary is requested and shown
    and one line is read.  If that line, stripped, is [yes] in any letter
    case the session is Completed and the answers are printed as the final
    record; for every other line the session is Cancelled and no record is
    printed.  In every session a record is printed only on completion.
    The record printed is the JSON text of the answers: an object with one
    line per key, in the order of the answers, each key and each value
    between double quotes, with the quote, the backslash and the control
    characters escaped and every other character written as it is. *)
Theorem confirmation_decides
    (answers : dict) (ctx : list message) (line : string)
    (rest : list string) (w : world) :
  session svc [] answers ctx (line :: rest) w
  = (if lower (strip line) =? "yes"
     then (Completed, rest,
           put (FinalJson (json_dumps_indent answers))
               (put FinalHeader (summarized svc answers w)))
     else (Cancelled, rest, put NothingSaved (summarized svc answers w))) /\
  stdout (summarized svc answers w)
  = (stdout w ++ [SummaryHeader;
                  Summary (reply svc (summarize_messages answers)
                                 (List.length (requests w)));
                  ConfirmPrompt])%list /\
  emitted (put (FinalJson (json_dumps_indent answers))
               (put FinalHeader (summarized svc answers w)))
  = (emitted w ++ [json_dumps_indent answers])%list /\
  emitted (put NothingSaved (summarized svc answers w)) = emitted w /\
  (forall fields lines,
      match session svc fields answers ctx lines w with
      | (Completed, _, w') =>
          exists final,
            emitted w' = (emitted w ++ [json_dumps_indent final])%list
      | (_, _, w') => emitted w' = emitted w
      end) /\
  json_dumps_indent answers
  = match answers with
    | [] => "{}"
    | _ => "{" ++ lf ++ "  "
           ++ String.concat ("," ++ lf ++ "  ")
                (map (fun kv => (dq ++ escape (fst kv) ++ dq) ++ ": "
                                ++ (dq ++ escape (snd kv) ++ dq)) answers)
           ++ lf ++ "}"
    end /\
  (forall s,
      forallb (fun c => (32 <=? nat_of_ascii c)%nat
                        && negb (nat_of_ascii c =? 34)%nat
                        && negb (nat_of_ascii c =? 92)%nat)
              (list_ascii_of_string s) = true ->
      escape s = s) /\
  escape (dq ++ bs ++ lf
          ++ String (ascii_of_nat 13)
               (String (ascii_of_nat 9)
                  (String (ascii_of_nat 8)
                     (String (ascii_of_nat 12)
                        (String (ascii_of_nat 1)
                           (String (ascii_of_nat 31) ""))))))
  = bs ++ dq ++ bs ++ bs ++ bs ++ "n" ++ bs ++ "r" ++ bs ++ "t"
    ++ bs ++ "b" ++ bs ++ "f" ++ bs ++ "u0001" ++ bs ++ "u001f".
Proof.
  split; [|split; [|split; [|split; [|split; [|split; [|split]]]]]].
  - rewrite session_confirm, confirmation_run. reflexivity.
  - apply stdout_summarized.
  - rewrite !emitted_put, app_nil_r, emitted_summarized. reflexivity.
  - rewrite emitted_put, app_nil_r. apply emitted_summarized.
  - intros fields lines. apply session_emitted.
  - apply record_text.
  - apply escape_plain.
  - reflexivity.
Qed.

End ControllerClaims.

(** C7 on two answers, one of them with a quote and a backslash in it:
    the text printed after [YES], and nothing printed after [no]. *)
Lemma confirmation_decides_witness :
  session (canned "ok") []
          [("first_name", "Brien"); ("note", "a" ++ dq ++ "b" ++ bs ++ "c")]
          [] [" YES "] start
  = (Completed, [],
     {| stdout :=
          [SummaryHeader; Summary "ok"; ConfirmPrompt; FinalHeader;
           FinalJson
             ("{" ++ lf
              ++ "  " ++ dq ++ "first_name" ++ dq ++ ": "
                      ++ dq ++ "Brien" ++ dq ++ "," ++ lf
              ++ "  " ++ dq ++ "note" ++ dq ++ ": "
                      ++ dq ++ "a" ++ bs ++ dq ++ "b" ++ bs ++ bs ++ "c" ++ dq
              ++ lf ++ "}")];
        requests :=
          [request_of
             (summarize_messages
                [("first_name", "Brien");
                 ("note", "a" ++ dq ++ "b" ++ bs ++ "c")])];
        validated := [] |}) /\
  session (canned "ok") []
          [("first_name", "Brien"); ("note", "a" ++ dq ++ "b" ++ bs ++ "c")]
          [] ["no"] start
  = (Cancelled, [],
     {| stdout := [SummaryHeader; Summary "ok"; ConfirmPrompt; NothingSaved];
        requests :=
          [request_of
             (summarize_messages
                [("first_name", "Brien");
                 ("note", "a" ++ dq ++ "b" ++ bs ++ "c")])];
        validated := [] |}) /\
  escape "O'Brien-Lee 42" = "O'Brien-Lee 42".
Proof.
  split; [|split].
  - exact (proj1 (confirmation_decides (canned "ok")
                    [("first_name", "Brien");
                     ("note", "a" ++ dq ++ "b" ++ bs ++ "c")]
                    [] " YES " [] start)).
  - exact (proj1 (confirmation_decides (canned "ok")
                    [("first_name", "Brien");
                     ("note", "a" ++ dq ++ "b" ++ bs ++ "c")]
                    [] "no" [] start)).
  - destruct (confirmation_decides (canned "ok") [] [] "" [] start)
      as (_ & _ & _ & _ & _ & _ & Hplain & _).
    apply Hplain. reflexivity.
Defined.

(** C4 on a run from the start: [QUIT] at the third field. *)
Lemma quit_cancels_session_witness :
  exists w',
    session (canned "ok") (skipn 2 SCHEMA) [("first_name", "Ann"); ("last_name", "Lee")]
            [] ("QUIT" :: "Peru" :: []) start
    = (Cancelled, ["Peru"], w') /\
    stdout w' = [Prompt "Country of tax residency: "; ExitNotSaved] /\
    requests w' = [] /\
    validated w' = [] /\
    emitted w' = [].
Proof.
  exact (quit_cancels_session (canned "ok") country (skipn 3 SCHEMA) [("first_name", "Ann"); ("last_name", "Lee")] []
           "QUIT" ["Peru"] start eq_refl).
Defined.

(** C5 at a concrete state: [Help] then [HELP] at the second field. *)
Lemma help_keeps_state_witness :
  session (canned "ok") [last_name] [("first_name", "Ann")] [] (" Help " :: "Lee" :: []) start
  = session (canned "ok") [last_name] [("first_name", "Ann")] [] ["Lee"]
      (helped (canned "ok") last_name start) /\
  session (canned "ok") [last_name] [("first_name", "Ann")] []
          (["help"; "HELP"] ++ ["Lee"]) start
  = session (canned "ok") [last_name] [("first_name", "Ann")] [] ["Lee"]
      (iterate 2 (helped (canned "ok") last_name) start).
Proof.
  destruct (help_keeps_state (canned "ok") last_name [] [("first_name", "Ann")] [] start)
    as (H1 & _ & _ & _ & _ & Hn & _).
  split.
  - apply (H1 " Help " ["Lee"]). reflexivity.
  - apply (Hn ["help"; "HELP"] ["Lee"]). repeat constructor.
Defined.

(** C6 at the first field of the schema: an empty line and a blank one. *)
Lemma required_empty_never_advances_witness :
  session (canned "ok") (first_name :: skipn 1 SCHEMA) [] [] ("" :: "Ann" :: []) start
  = session (canned "ok") (first_name :: skipn 1 SCHEMA) [] [] ["Ann"] (refused first_name start) /\
  session (canned "ok") (first_name :: skipn 1 SCHEMA) [] [] [""; "   "] start
  = (Crashed EOFError, [],
     prompted first_name (iterate 2 (refused first_name) start)).
Proof.
  destruct (required_empty_never_advances (canned "ok") first_name (skipn 1 SCHEMA) [] [] start
              eq_refl) as (H1 & _ & _ & _ & _ & Hall).
  split.
  - apply (H1 "" ["Ann"]). reflexivity.
  - apply (Hall [""; "   "]). repeat constructor.
Defined.


(** ** The answers *)

Section AnswerFacts.

Variable svc : service.

Lemma keys_dict_set_new (k v : string) (d : dict) :
  ~ In k (keys d) -> keys (dict_set k v d) = (keys d ++ [k])%list.
Proof.
  induction d as [|[k' v'] d IH]; intros Hn; [reflexivity|].
  cbn [dict_set]. destruct (String.eqb_spec k' k) as [->|Hne].
  - exfalso. apply Hn. left. reflexivity.
  - unfold keys in *. cbn [map fst app]. rewrite IH; [reflexivity|].
    intros Hin. apply Hn. right. exact Hin.
Qed.

Lemma dict_get_set_same (k v : string) (d : dict) :
  dict_get k (dict_set k v d) = Some v.
Proof.
  induction d as [|[k' v'] d IH]; simpl.
  - rewrite String.eqb_refl. reflexivity.
  - destruct (String.eqb_spec k' k) as [->|Hne]; simpl.
    + rewrite String.eqb_refl. reflexivity.
    + destruct (String.eqb_spec k' k); [contradiction | exact IH].
Qed.

Lemma dict_get_set_other (k k0 v : string) (d : dict) :
  k0 <> k -> dict_get k0 (dict_set k v d) = dict_get k0 d.
Proof.
  intros Hne. induction d as [|[k' v'] d IH]; simpl.
  - destruct (String.eqb_spec k k0); [congruence | reflexivity].
  - destruct (String.eqb_spec k' k) as [->|Hk]; simpl.
    + destruct (String.eqb_spec k k0); [congruence | reflexivity].
    + destruct (String.eqb_spec k' k0); [reflexivity | exact IH].
Qed.

Lemma in_dict_set (k v : string) (d : dict) (kv : string * string) :
  In kv (dict_set k v d) -> kv = (k, v) \/ In kv d.
Proof.
  induction d as [|[k' v'] d IH]; simpl.
  - intros [<-|[]]. left. reflexivity.
  - destruct (k' =? k); simpl; intros [<-|H]; auto.
    destruct (IH H); auto.
Qed.

(** How the loop of a field ends when it ends normally: the stripped line
    it accepted is stored under the key of the field and logged. *)
Lemma prompting_next (field : Field) (answers : dict) (ctx : list message)
                     (lines : list string) :
  forall (w : world) answers' ctx' rest w',
    prompting svc field answers ctx lines w = (Next answers' ctx', rest, w') ->
    exists line,
      In line lines /\
      classify field line = TAccept /\
      answers' = dict_set (key field) (strip line) answers /\
      ctx' = (ctx ++ [log_entry field (strip line)])%list.
Proof.
  induction lines as [|line lines IH]; intros w answers' ctx' rest w' H.
  - discriminate H.
  - rewrite prompting_step in H.
    destruct (classify field line) eqn:Hc;
      try (destruct (IH _ _ _ _ _ H) as (l & Hin & Hrest);
           exists l; split; [right; exact Hin | exact Hrest]).
    + discriminate H.
    + injection H as <- <- _ _. exists line. repeat split; auto. left; auto.
Qed.

Lemma collect_cons (field : Field) (later : list Field) (answers : dict)
                   (ctx : list message) (lines : list string) (w : world) :
  collect svc (field :: later) answers ctx lines w
  = match prompting svc field answers ctx lines w with
    | (Next answers' ctx', lines', w') => collect svc later answers' ctx' lines' w'
    | stop => stop
    end.
Proof. reflexivity. Qed.

(** Keys are added in the order of the fields. *)
Lemma collect_keys (fields : list Field) :
  forall answers ctx lines w answers' ctx' rest w',
    collect svc fields answers ctx lines w = (Next answers' ctx', rest, w') ->
    NoDup (keys answers ++ map key fields) ->
    keys answers' = (keys answers ++ map key fields)%list.
Proof.
  induction fields as [|field later IH];
    intros answers ctx lines w answers' ctx' rest w' H Hnd.
  - injection H as <- _ _ _. simpl. symmetry. apply app_nil_r.
  - rewrite collect_cons in H.
    destruct (prompting svc field answers ctx lines w) as [[fl ls] w1] eqn:Hp.
    destruct fl as [a1 c1| |e]; try discriminate H.
    destruct (prompting_next _ _ _ _ _ _ _ _ _ Hp) as (l & _ & _ & -> & _).
    assert (Hk : keys (dict_set (key field) (strip l) answers)
                 = (keys answers ++ [key field])%list).
    { apply keys_dict_set_new. intros Hin.
      simpl in Hnd. apply NoDup_remove_2 in Hnd.
      apply Hnd. apply in_or_app. left. exact Hin. }
    rewrite (IH _ _ _ _ _ _ _ _ H); rewrite Hk, <- app_assoc; [reflexivity|].
    exact Hnd.
Qed.

(** A value stays as it is while fields with other keys are asked. *)
Lemma collect_get (fields : list Field) :
  forall answers ctx lines w answers' ctx' rest w' k,
    collect svc fields answers ctx lines w = (Next answers' ctx', rest, w') ->
    ~ In k (map key fields) ->
    dict_get k answers' = dict_get k answers.
Proof.
  induction fields as [|field later IH];
    intros answers ctx lines w answers' ctx' rest w' k H Hk.
  - injection H as <- _ _ _. reflexivity.
  - rewrite collect_cons in H.
    destruct (prompting svc field answers ctx lines w) as [[fl ls] w1] eqn:Hp.
    destruct fl as [a1 c1| |e]; try discriminate H.
    destruct (prompting_next _ _ _ _ _ _ _ _ _ Hp) as (l & _ & _ & -> & _).
    rewrite (IH _ _ _ _ _ _ _ _ k H).
    + apply dict_get_set_other. intros ->. apply Hk. left. reflexivity.
    + intros Hin. apply Hk. right. exact Hin.
Qed.

(** Every value stored is a stripped line. *)
Lemma collect_values (fields : list Field) :
  forall answers ctx lines w answers' ctx' rest w',
    collect svc fields answers ctx lines w = (Next answers' ctx', rest, w') ->
    Forall (fun kv => trimmed (snd kv)) answers ->
    Forall (fun kv => trimmed (snd kv)) answers'.
Proof.
  induction fields as [|field later IH];
    intros answers ctx lines w answers' ctx' rest w' H Hall.
  - injection H as <- _ _ _. exact Hall.
  - rewrite collect_cons in H.
    destruct (prompting svc field answers ctx lines w) as [[fl ls] w1] eqn:Hp.
    destruct fl as [a1 c1| |e]; try discriminate H.
    destruct (prompting_next _ _ _ _ _ _ _ _ _ Hp) as (l & _ & _ & -> & _).
    apply (IH _ _ _ _ _ _ _ _ H).
    apply Forall_forall. intros kv Hin.
    destruct (in_dict_set _ _ _ _ Hin) as [->|Hold].
    + apply strip_trimmed.
    + exact (proj1 (Forall_forall _ _) Hall kv Hold).
Qed.

(** A completed session: the fields were all answered, the next line was
    [yes], and the answers collected were printed. *)
Lemma session_completed (fields : list Field) (answers : dict)
                        (ctx : list message) (lines rest : list string)
                        (w w' : world) :
  session svc fields answers ctx lines w = (Completed, rest, w') ->
  exists answers' ctx' line w1,
    collect svc fields answers ctx lines w
    = (Next answers' ctx', line :: rest, w1) /\
    lower (strip line) = "yes" /\
    w' = put (FinalJson (json_dumps_indent answers'))
             (put FinalHeader (summarized svc answers' w1)).
Proof.
  unfold session.
  destruct (collect svc fields answers ctx lines w) as [[fl ls] w1] eqn:Hc.
  destruct fl as [a1 c1| |e]; try discriminate.
  rewrite confirmation_run. destruct ls as [|line ls]; [discriminate|].
  destruct (String.eqb_spec (lower (strip line)) "yes") as [Hy|_];
    [|discriminate].
  intros [= <- <-]. exists a1, c1, line, w1. auto.
Qed.

End AnswerFacts.

(** ** Whole sessions *)

Section SessionFacts.

Variable svc : service.

Lemma prompting_emitted (field : Field) (answers : dict) (ctx : list message)
                        (lines : list string) :
  forall w fl rest w',
    prompting svc field answers ctx lines w = (fl, rest, w') ->
    emitted w' = emitted w.
Proof.
  induction lines as [|line lines IH]; intros w fl rest w' H.
  - rewrite prompting_nil in H. injection H as _ _ <-.
    apply emitted_prompted.
  - rewrite prompting_step in H.
    pose proof (emitted_after_turn svc field line w) as Hw.
    destruct (classify field line);
      try (rewrite <- Hw; exact (IH _ _ _ _ H));
      injection H as _ _ <-; exact Hw.
Qed.

Lemma collect_emitted (fields : list Field) :
  forall answers ctx lines w fl rest w',
    collect svc fields answers ctx lines w = (fl, rest, w') ->
    emitted w' = emitted w.
Proof.
  induction fields as [|field later IH];
    intros answers ctx lines w fl rest w' H.
  - injection H as _ _ <-. reflexivity.
  - rewrite collect_cons in H.
    destruct (prompting svc field answers ctx lines w) as [[fl1 ls] w1] eqn:Hp.
    apply prompting_emitted in Hp. rewrite <- Hp.
    destruct fl1 as [a1 c1| |e];
      [exact (IH _ _ _ _ _ _ _ H) | |]; injection H as _ _ <-; reflexivity.
Qed.

(** The conversation log has no effect on a session. *)
Lemma session_ignores_log (lines : list string) :
  forall fields answers ctx ctx' w,
    session svc fields answers ctx lines w
    = session svc fields answers ctx' lines w.
Proof.
  induction lines as [|line rest IH]; intros [|field later] answers ctx ctx' w;
    try reflexivity.
  rewrite !session_step. destruct (classify field line); auto.
Qed.

Lemma gateway_request_later (field : Field) (later : list Field) (r : request) :
  gateway_request later r -> gateway_request (field :: later) r.
Proof.
  intros [(f & Hin & Hr)|Hs]; [left | right; exact Hs].
  exists f. split; [right; exact Hin | exact Hr].
Qed.

Lemma requests_after_turn (field : Field) (line : string) (w : world) :
  exists new,
    requests (after_turn svc field line w) = (requests w ++ new)%list /\
    Forall (gateway_request [field]) new.
Proof.
  unfold after_turn.
  destruct (classify field line);
    [ | exists [request_of (explain_messages field None)] | | | ];
    try (exists []).
  all: try destruct (truthy (strip line)).
  all: split; [simpl; rewrite ?app_nil_r; reflexivity|].
  all: repeat constructor.
  all: exists field; split; [left|]; reflexivity.
Qed.

(** Every request of a session explains one of its fields or summarizes
    the answers. *)
Lemma session_requests (lines : list string) :
  forall fields answers ctx w,
    exists new,
      requests (snd (session svc fields answers ctx lines w))
      = (requests w ++ new)%list /\
      Forall (gateway_request fields) new.
Proof.
  assert (Hconf : forall answers ctx ls w,
             exists new,
               requests (snd (session svc [] answers ctx ls w))
               = (requests w ++ new)%list /\
               Forall (gateway_request []) new).
  { intros answers ctx ls w. rewrite session_confirm, confirmation_run.
    exists [request_of (summarize_messages answers)]. split.
    - destruct ls as [|l ls]; [|destruct (lower (strip l) =? "yes")];
        reflexivity.
    - constructor; [|constructor]. right. exists answers. reflexivity. }
  induction lines as [|line rest IH]; intros [|field later] answers ctx w;
    try apply Hconf.
  - rewrite session_eof. exists []. split; [symmetry; apply app_nil_r|].
    constructor.
  - rewrite session_step.
    destruct (requests_after_turn field line w) as (n1 & Hn1 & Hf1).
    assert (Hf1' : Forall (gateway_request (field :: later)) n1).
    { eapply Forall_impl; [|exact Hf1].
      intros r [(f & [Hf|[]] & Hr)|Hs]; [left | right; exact Hs].
      exists f. split; [left; exact Hf | exact Hr]. }
    assert (Hgo : forall fields' a' c',
               (forall r, gateway_request fields' r ->
                          gateway_request (field :: later) r) ->
               exists new,
                 requests (snd (session svc fields' a' c' rest
                                  (after_turn svc field line w)))
                 = (requests w ++ new)%list /\
                 Forall (gateway_request (field :: later)) new).
    { intros fields' a' c' Hmono.
      destruct (IH fields' a' c' (after_turn svc field line w))
        as (n2 & Hn2 & Hf2).
      exists (n1 ++ n2)%list. split.
      - rewrite Hn2, Hn1, app_assoc. reflexivity.
      - apply Forall_app. split; [exact Hf1'|].
        eapply Forall_impl; [exact Hmono | exact Hf2]. }
    destruct (classify field line);
      try (apply Hgo; intros r Hr; exact Hr);
      try (apply Hgo; apply gateway_request_later).
    exists n1. split; [exact Hn1 | exact Hf1'].
Qed.

(** A session treats a line as it treats the stripped line. *)
Lemma session_strips (lines : list string) :
  forall fields answers ctx w,
    session svc fields answers ctx (map strip lines) w
    = rest_stripped (session svc fields answers ctx lines w).
Proof.
  induction lines as [|line rest IH]; intros [|field later] answers ctx w.
  - rewrite !session_confirm, !confirmation_run. reflexivity.
  - reflexivity.
  - rewrite !session_confirm, !confirmation_run. cbn [map].
    rewrite strip_idempotent.
    destruct (lower (strip line) =? "yes"); reflexivity.
  - cbn [map]. rewrite !session_step.
    rewrite classify_strip, after_turn_strip, strip_idempotent.
    destruct (classify field line); try apply IH. reflexivity.
Qed.

(** No exception but the end of the input ever leaves a session. *)
Lemma session_crash (lines : list string) :
  forall fields answers ctx w,
    match fst (fst (session svc fields answers ctx lines w)) with
    | Crashed e => e = EOFError
    | _ => True
    end.
Proof.
  induction lines as [|line rest IH]; intros [|field later] answers ctx w.
  - rewrite session_confirm, confirmation_run. reflexivity.
  - reflexivity.
  - rewrite session_confirm, confirmation_run.
    destruct (lower (strip line) =? "yes"); exact I.
  - rewrite session_step. destruct (classify field line); try apply IH.
    exact I.
Qed.

End SessionFacts.

(** ** The answer set and the record *)

(** C1, as the specification states it, fails: at the optional field of
    the schema an empty line does advance the controller, but the key of
    the field is added to the answers, with the empty string as its value,
    and the record printed on completion has the key. *)
Lemma optional_empty_adds_key :
  ~ (forall (svc : service) (field : Field) (answers : dict)
            (ctx : list message) (line : string) (rest : list string)
            (w : world),
        required field = false ->
        strip line = "" ->
        exists answers' ctx' w',
          prompting svc field answers ctx (line :: rest) w
          = (Next answers' ctx', rest, w') /\
          ~ In (key field) (keys answers')) /\
  (exists rest w text,
      run_registration (canned "ok")
        ["Ann"; "Lee"; "Peru"; "AB123456"; "salary"; ""; "yes"]
      = (Completed, rest, w) /\
      emitted w = [text] /\
      contains (json_item ("investment_experience_years", "")) text = true).
Proof.
  split.
  - intros H.
    destruct (H (canned "ok") investment_experience_years [] [] "" [] start
                eq_refl eq_refl) as (a & c & w & Hp & Hn).
    vm_compute in Hp. injection Hp as <- _ _.
    apply Hn. left. reflexivity.
  - eexists. eexists. eexists.
    split; [vm_compute; reflexivity|].
    split; [reflexivity | vm_compute; reflexivity].
Qed.

(** C1 (amended).  At an optional field an empty line (empty after
    stripping) advances the controller to the next field, without a call of
    [is_valid]; the key of the field is added to the answers with the empty
    string as its value, and when the keys of the later fields differ from
    it, the record printed on completion holds the key with the value
    [""]. *)
Theorem optional_empty_is_recorded
    (svc : service) (field : Field) (later : list Field) (answers : dict)
    (ctx : list message) (line : string) (rest : list string) (w : world) :
  required field = false ->
  strip line = "" ->
  prompting svc field answers ctx (line :: rest) w
  = (Next (dict_set (key field) "" answers)
          (ctx ++ [log_entry field ""])%list,
     rest, prompted field w) /\
  session svc (field :: later) answers ctx (line :: rest) w
  = session svc later (dict_set (key field) "" answers)
            (ctx ++ [log_entry field ""])%list rest (prompted field w) /\
  dict_get (key field) (dict_set (key field) "" answers) = Some "" /\
  validated (prompted field w) = validated w /\
  (forall rest' w',
      ~ In (key field) (map key later) ->
      session svc (field :: later) answers ctx (line :: rest) w
      = (Completed, rest', w') ->
      exists final,
        emitted w' = (emitted w ++ [json_dumps_indent final])%list /\
        dict_get (key field) final = Some "").
Proof.
  intros Hopt He.
  assert (Hs : session svc (field :: later) answers ctx (line :: rest) w
               = session svc later (dict_set (key field) "" answers)
                   (ctx ++ [log_entry field ""])%list rest (prompted field w)).
  { rewrite session_step, (classify_empty field line He), Hopt.
    unfold after_turn. rewrite (classify_empty field line He), Hopt, He.
    reflexivity. }
  split; [|split; [exact Hs|split; [apply dict_get_set_same|split]]].
  - rewrite prompting_step, (classify_empty field line He), Hopt.
    unfold after_turn. rewrite (classify_empty field line He), Hopt, He.
    reflexivity.
  - reflexivity.
  - intros rest' w' Hk Hdone. rewrite Hs in Hdone.
    destruct (session_completed _ _ _ _ _ _ _ _ Hdone)
      as (final & c' & yes & w1 & Hc & _ & ->).
    exists final. split.
    + rewrite !emitted_put, app_nil_r, emitted_summarized.
      rewrite (collect_emitted _ _ _ _ _ _ _ _ _ Hc), emitted_prompted.
      reflexivity.
    + rewrite (collect_get _ _ _ _ _ _ _ _ _ _ _ Hc Hk).
      apply dict_get_set_same.
Qed.

(** C1 (amended) at the last field of the schema, with the text of the
    record that is printed. *)
Lemma optional_empty_is_recorded_witness :
  required investment_experience_years = false /\
  strip "  " = "" /\
  session (canned "ok") [investment_experience_years]
          [("first_name", "Ann")] [] ["  "; "yes"] start
  = session (canned "ok") []
            [("first_name", "Ann"); ("investment_experience_years", "")]
            [log_entry investment_experience_years ""] ["yes"]
            (prompted investment_experience_years start) /\
  (exists final,
      emitted (snd (session (canned "ok") [investment_experience_years]
                      [("first_name", "Ann")] [] ["  "; "yes"] start))
      = (emitted start ++ [json_dumps_indent final])%list /\
      dict_get (key investment_experience_years) final = Some "") /\
  emitted (snd (session (canned "ok") [investment_experience_years]
                  [("first_name", "Ann")] [] ["  "; "yes"] start))
  = ["{" ++ lf
     ++ "  " ++ dq ++ "first_name" ++ dq ++ ": " ++ dq ++ "Ann" ++ dq
     ++ "," ++ lf
     ++ "  " ++ dq ++ "investment_experience_years" ++ dq ++ ": " ++ dq ++ dq
     ++ lf ++ "}"].
Proof.
  split; [reflexivity|]. split; [reflexivity|].
  destruct (optional_empty_is_recorded (canned "ok")
              investment_experience_years []
              [("first_name", "Ann")] [] "  " ["yes"] start eq_refl eq_refl)
    as (_ & Hs & _ & _ & Hfinal).
  split; [exact Hs|]. split.
  - apply (Hfinal []); [intros [] | reflexivity].
  - reflexivity.
Defined.

(** C8.  On completion the record printed has the keys of the schema, in
    the order of the schema: for any list of fields with distinct keys the
    answers printed have exactly the keys of the fields in their order, and
    the text printed writes them item by item in that order, each key
    between double quotes before its value.  For [SCHEMA] the text is
    spelled out: the six keys, one per line, in the order of the schema. *)
Theorem record_keys_in_schema_order (svc : service) :
  (forall (fields : list Field) (ctx : list message) (lines rest : list string)
          (w w' : world),
      NoDup (map key fields) ->
      session svc fields [] ctx lines w = (Completed, rest, w') ->
      exists final out,
        keys final = map key fields /\
        stdout w' = (out ++ [FinalHeader; FinalJson (json_dumps_indent final)])%list /\
        emitted w' = (emitted w ++ [json_dumps_indent final])%list /\
        json_dumps_indent final
        = match final with
          | [] => "{}"
          | _ => "{" ++ lf ++ "  "
                 ++ String.concat ("," ++ lf ++ "  ")
                      (map (fun kv => (dq ++ escape (fst kv) ++ dq) ++ ": "
                                      ++ (dq ++ escape (snd kv) ++ dq)) final)
                 ++ lf ++ "}"
          end) /\
  (forall (lines rest : list string) (w' : world),
      run_registration svc lines = (Completed, rest, w') ->
      exists final,
        keys final = map key SCHEMA /\
        emitted w'
        = ["{" ++ nl ++ "  "
           ++ String.concat ("," ++ nl ++ "  ") (map json_item final)
           ++ nl ++ "}"] /\
        exists v1 v2 v3 v4 v5 v6,
          final = [("first_name", v1); ("last_name", v2); ("country", v3);
                   ("passport_number", v4); ("source_of_funds", v5);
                   ("investment_experience_years", v6)] /\
          emitted w'
          = [String.concat ""
               ["{"; lf;
                "  "; dq; "first_name"; dq; ": "; dq; escape v1; dq; ","; lf;
                "  "; dq; "last_name"; dq; ": "; dq; escape v2; dq; ","; lf;
                "  "; dq; "country"; dq; ": "; dq; escape v3; dq; ","; lf;
                "  "; dq; "passport_number"; dq; ": "; dq; escape v4; dq; ",";
                lf;
                "  "; dq; "source_of_funds"; dq; ": "; dq; escape v5; dq; ",";
                lf;
                "  "; dq; "investment_experience_years"; dq; ": "; dq;
                escape v6; dq; lf;
                "}"]]).
Proof.
  assert (Hgen : forall fields ctx lines rest w w',
             NoDup (map key fields) ->
             session svc fields [] ctx lines w = (Completed, rest, w') ->
             exists final out,
               keys final = map key fields /\
               stdout w' = (out ++ [FinalHeader;
                                    FinalJson (json_dumps_indent final)])%list /\
               emitted w' = (emitted w ++ [json_dumps_indent final])%list).
  { intros fields ctx lines rest w w' Hnd Hdone.
    destruct (session_completed _ _ _ _ _ _ _ _ Hdone)
      as (final & c' & yes & w1 & Hc & _ & ->).
    exists final, (stdout (summarized svc final w1)). split; [|split].
    - exact (collect_keys _ _ _ _ _ _ _ _ _ _ Hc Hnd).
    - simpl. rewrite <- !app_assoc. reflexivity.
    - rewrite !emitted_put, app_nil_r, emitted_summarized.
      rewrite (collect_emitted _ _ _ _ _ _ _ _ _ Hc). reflexivity. }
  split.
  - intros fields ctx lines rest w w' Hnd Hdone.
    destruct (Hgen _ _ _ _ _ _ Hnd Hdone) as (final & out & Hk & Ho & He).
    exists final, out.
    split; [exact Hk|]. split; [exact Ho|]. split; [exact He|].
    apply record_text.
  - intros lines rest w' Hrun. unfold run_registration in Hrun.
    assert (Hnd : NoDup (map key SCHEMA)).
    { repeat constructor; simpl; intuition discriminate. }
    destruct (Hgen _ _ _ _ _ _ Hnd Hrun) as (final & out & Hk & _ & He).
    exists final. split; [exact Hk|]. split.
    + rewrite He. destruct final as [|kv final]; [discriminate Hk | reflexivity].
    + destruct final as [|[k1 v1] [|[k2 v2] [|[k3 v3] [|[k4 v4] [|[k5 v5]
        [|[k6 v6] [|kv final]]]]]]]; try discriminate Hk.
      injection Hk as -> -> -> -> -> ->.
      exists v1, v2, v3, v4, v5, v6. split; [reflexivity|].
      rewrite He. cbn [emitted put start stdout emitted_in app].
      f_equal. apply schema_record_text.
Qed.

(** C8 on a complete run: the text printed, character by character. *)
Lemma record_keys_in_schema_order_witness :
  NoDup (map key SCHEMA) /\
  (exists final out,
      keys final = map key SCHEMA /\
      stdout (snd (run_registration (canned "ok")
                     ["Ann"; "Lee"; "Peru"; "AB123456"; "salary"; "7"; "yes"]))
      = (out ++ [FinalHeader; FinalJson (json_dumps_indent final)])%list /\
      emitted (snd (run_registration (canned "ok")
                      ["Ann"; "Lee"; "Peru"; "AB123456"; "salary"; "7"; "yes"]))
      = (emitted (put Greeting start) ++ [json_dumps_indent final])%list) /\
  (exists final,
      keys final
      = ["first_name"; "last_name"; "country"; "passport_number";
         "source_of_funds"; "investment_experience_years"] /\
      emitted (snd (run_registration (canned "ok")
                      ["Ann"; "Lee"; "Peru"; "AB123456"; "salary"; "7"; "yes"]))
      = ["{" ++ nl ++ "  "
         ++ String.concat ("," ++ nl ++ "  ") (map json_item final)
         ++ nl ++ "}"]) /\
  emitted (snd (run_registration (canned "ok")
                  ["Ann"; "Lee"; "Peru"; "AB123456"; "salary"; "7"; "yes"]))
  = ["{" ++ lf
     ++ "  " ++ dq ++ "first_name" ++ dq ++ ": " ++ dq ++ "Ann" ++ dq
     ++ "," ++ lf
     ++ "  " ++ dq ++ "last_name" ++ dq ++ ": " ++ dq ++ "Lee" ++ dq
     ++ "," ++ lf
     ++ "  " ++ dq ++ "country" ++ dq ++ ": " ++ dq ++ "Peru" ++ dq
     ++ "," ++ lf
     ++ "  " ++ dq ++ "passport_number" ++ dq ++ ": " ++ dq ++ "AB123456" ++ dq
     ++ "," ++ lf
     ++ "  " ++ dq ++ "source_of_funds" ++ dq ++ ": " ++ dq ++ "salary" ++ dq
     ++ "," ++ lf
     ++ "  " ++ dq ++ "investment_experience_years" ++ dq ++ ": "
             ++ dq ++ "7" ++ dq ++ lf
     ++ "}"].
Proof.
  assert (Hnd : NoDup (map key SCHEMA)).
  { repeat constructor; simpl; intuition discriminate. }
  destruct (record_keys_in_schema_order (canned "ok")) as [Hgen Hrun].
  split; [exact Hnd|]. split; [|split].
  - destruct (Hgen SCHEMA [ {| role := "system"; content := SYSTEM_PROMPT |} ]
                ["Ann"; "Lee"; "Peru"; "AB123456"; "salary"; "7"; "yes"] []
                (put Greeting start)
                (snd (run_registration (canned "ok")
                        ["Ann"; "Lee"; "Peru"; "AB123456"; "salary"; "7"; "yes"]))
                Hnd eq_refl) as (final & out & Hk & Ho & He & _).
    exists final, out. auto.
  - destruct (Hrun ["Ann"; "Lee"; "Peru"; "AB123456"; "salary"; "7"; "yes"] []
                _ eq_refl) as (final & Hk & He & _).
    exists final. auto.
  - destruct (Hrun ["Ann"; "Lee"; "Peru"; "AB123456"; "salary"; "7"; "yes"] []
                _ eq_refl)
      as (final & _ & _ & v1 & v2 & v3 & v4 & v5 & v6 & _ & _).
    reflexivity.
Defined.

(** ** The conversation log *)

(** C2, as the specification states it, fails.  After [Ann] is recorded
    as the first name, so that the log holds an entry for it, [help] at the
    next field sends one request; its messages are the system prompt and
    the explanation of the field, and neither the log entry nor the answer
    is in them.  The request for the summary holds the answers as JSON, not
    the log either. *)
Lemma log_is_not_sent :
  (exists w,
      prompting (canned "ok") first_name []
        [ {| role := "system"; content := SYSTEM_PROMPT |} ] ["Ann"]
        (put Greeting start)
      = (Next [("first_name", "Ann")]
              [ {| role := "system"; content := SYSTEM_PROMPT |};
                log_entry first_name "Ann" ],
         [], w)) /\
  requests (snd (run_registration (canned "ok") ["Ann"; "help"]))
  = [request_of (explain_messages last_name None)] /\
  ~ In (log_entry first_name "Ann") (explain_messages last_name None) /\
  forallb (fun m => negb (contains "Ann" (content m)))
          (explain_messages last_name None) = true /\
  (exists answers,
      requests (snd (run_registration (canned "ok")
                       ["Ann"; "Lee"; "Peru"; "AB123456"; "salary"; "7"]))
      = [request_of (summarize_messages answers)] /\
      ~ In (log_entry first_name "Ann") (summarize_messages answers) /\
      forallb (fun m => negb (contains (content (log_entry first_name "Ann"))
                                       (content m)))
              (summarize_messages answers) = true).
Proof.
  split; [eexists; vm_compute; reflexivity|].
  split; [vm_compute; reflexivity|].
  split; [intros [H|[H|[]]]; discriminate H|].
  split; [vm_compute; reflexivity|].
  exists [("first_name", "Ann"); ("last_name", "Lee"); ("country", "Peru");
          ("passport_number", "AB123456"); ("source_of_funds", "salary");
          ("investment_experience_years", "7")].
  split; [vm_compute; reflexivity|].
  split; [intros [H|[H|[]]]; discriminate H | vm_compute; reflexivity].
Qed.

Section RequestsOfASession.

Variable svc : service.

Lemma requests_after_turn_cases (field : Field) (line : string) (w : world) :
  requests (after_turn svc field line w)
  = (requests w
     ++ match classify field line with
        | THelp => [request_of (explain_messages field None)]
        | _ => []
        end)%list.
Proof.
  unfold after_turn.
  destruct (classify field line); try destruct (truthy (strip line));
    simpl; rewrite ?app_nil_r; reflexivity.
Qed.

(** The requests of a session are the calls read off the fields, the
    answers and the lines. *)
Lemma session_gateway_calls (lines : list string) :
  forall fields answers ctx w,
    requests (snd (session svc fields answers ctx lines w))
    = (requests w ++ map request_of (gateway_calls fields answers lines))%list.
Proof.
  induction lines as [|line rest IH]; intros [|field later] answers ctx w.
  - rewrite session_confirm, confirmation_run. reflexivity.
  - rewrite session_eof. simpl. symmetry. apply app_nil_r.
  - rewrite session_confirm, confirmation_run.
    destruct (lower (strip line) =? "yes"); reflexivity.
  - rewrite session_step. cbn [gateway_calls].
    pose proof (requests_after_turn_cases field line w) as Hr.
    destruct (classify field line);
      try (rewrite IH, Hr, <- app_assoc; reflexivity).
    simpl. rewrite Hr. reflexivity.
Qed.

End RequestsOfASession.

(** C2 (amended).  The conversation log grows by one prompt -> answer
    entry for every answer that is accepted, and it is never supplied to
    the gateway: a session with another log does exactly the same.  A help
    line at a field sends one request, whose messages are the system prompt
    and one user message built from that field; when every field is
    answered one request is sent, whose messages are the system prompt and
    one user message built from the Answer Set; and the requests of a whole
    session are exactly these, in order, as read off the fields, the
    answers and the lines, with no log at hand. *)
Theorem log_is_kept_not_sent (svc : service) :
  (forall field answers ctx lines w answers' ctx' rest w',
      prompting svc field answers ctx lines w = (Next answers' ctx', rest, w') ->
      exists line,
        In line lines /\
        answers' = dict_set (key field) (strip line) answers /\
        ctx' = (ctx ++ [log_entry field (strip line)])%list) /\
  (forall fields answers ctx ctx' lines w,
      session svc fields answers ctx lines w
      = session svc fields answers ctx' lines w) /\
  (forall fields answers ctx lines w,
      exists new,
        requests (snd (session svc fields answers ctx lines w))
        = (requests w ++ new)%list /\
        Forall (gateway_request fields) new) /\
  (forall fields r, gateway_request fields r -> List.length (req_messages r) = 2) /\
  (forall field later answers ctx line rest w,
      lower (strip line) = "help" ->
      session svc (field :: later) answers ctx (line :: rest) w
      = session svc (field :: later) answers ctx rest (helped svc field w) /\
      requests (helped svc field w)
      = (requests w
         ++ [ {| req_model := "gpt-4o-mini";
                 req_messages := explain_messages field None;
                 req_temperature := 0 |} ])%list) /\
  (forall answers ctx lines w,
      requests (snd (session svc [] answers ctx lines w))
      = (requests w
         ++ [ {| req_model := "gpt-4o-mini";
                 req_messages := summarize_messages answers;
                 req_temperature := 0 |} ])%list) /\
  (forall fields answers ctx lines w,
      requests (snd (session svc fields answers ctx lines w))
      = (requests w ++ map request_of (gateway_calls fields answers lines))%list) /\
  (forall field u,
      explain_messages field u
      = [ {| role := "system"; content := SYSTEM_PROMPT |};
          {| role := "user";
             content :=
               "Explain to the user the CURRENT form field and how to fill it correctly. Be brief and practical."
               ++ lf ++ "Field question: " ++ question field
               ++ lf ++ "Hint: " ++ or_empty (help field)
               ++ lf ++ "Regex format: "
               ++ or_empty (option_map pattern_text (validate field))
               ++ lf ++ "User question: " ++ or_empty u |} ]) /\
  (forall answers,
      summarize_messages answers
      = [ {| role := "system"; content := SYSTEM_PROMPT |};
          {| role := "user";
             content :=
               "Create a short, clear human summary of the registration answers for final user confirmation. Do not add any new data; rephrase only."
               ++ lf ++ "Data: "
               ++ "{"
               ++ String.concat ", "
                    (map (fun kv => (dq ++ escape (fst kv) ++ dq) ++ ": "
                                    ++ (dq ++ escape (snd kv) ++ dq)) answers)
               ++ "}" |} ]).
Proof.
  split; [|split; [|split; [|split; [|split; [|split; [|split; [|split]]]]]]].
  - intros field answers ctx lines w answers' ctx' rest w' H.
    destruct (prompting_next _ _ _ _ _ _ _ _ _ _ H) as (l & Hin & _ & Ha & Hc).
    exists l. auto.
  - intros. apply session_ignores_log.
  - intros. apply session_requests.
  - intros fields r [(f & _ & ->)|(a & ->)]; reflexivity.
  - intros field later answers ctx line rest w Hh. split; [|reflexivity].
    rewrite session_step, (classify_help field line Hh).
    unfold after_turn. rewrite (classify_help field line Hh). reflexivity.
  - intros answers ctx lines w.
    rewrite (session_gateway_calls svc lines [] answers ctx w).
    destruct lines; reflexivity.
  - intros. apply session_gateway_calls.
  - intros field u. reflexivity.
  - intros answers. reflexivity.
Qed.

(** C2 (amended) at concrete inputs: the log entry of an accepted answer,
    the request of a help line, and the two requests of a whole dialogue,
    character by character. *)
Lemma log_is_kept_not_sent_witness :
  (exists line,
      In line ["  Ann "] /\
      [("first_name", "Ann")] = dict_set (key first_name) (strip line) [] /\
      [log_entry first_name "Ann"]
      = ([] ++ [log_entry first_name (strip line)])%list) /\
  List.length (req_messages (request_of (explain_messages last_name None))) = 2 /\
  (session (canned "ok") [last_name] [("first_name", "Ann")]
           [log_entry first_name "Ann"] [" Help "; "Lee"] start
   = session (canned "ok") [last_name] [("first_name", "Ann")]
             [log_entry first_name "Ann"] ["Lee"] (helped (canned "ok") last_name start)
   /\
   requests (helped (canned "ok") last_name start)
   = (requests start
      ++ [ {| req_model := "gpt-4o-mini";
              req_messages := explain_messages last_name None;
              req_temperature := 0 |} ])%list) /\
  requests (snd (session (canned "ok") [first_name; last_name] []
                   [ {| role := "system"; content := SYSTEM_PROMPT |} ]
                   ["Ann"; "help"; "Lee"; "yes"] start))
  = [ {| req_model := "gpt-4o-mini";
         req_messages :=
           [ {| role := "system"; content := SYSTEM_PROMPT |};
             {| role := "user";
                content :=
                  "Explain to the user the CURRENT form field and how to fill it correctly. Be brief and practical."
                  ++ lf
                  ++ "Field question: Please enter your Last Name (as in your ID):"
                  ++ lf
                  ++ "Hint: Type your legal last name exactly as it appears in your ID. Hyphen is allowed."
                  ++ lf ++ "Regex format: ^[A-Za-z\-]{2,}$"
                  ++ lf ++ "User question: " |} ];
         req_temperature := 0 |};
      {| req_model := "gpt-4o-mini";
         req_messages :=
           [ {| role := "system"; content := SYSTEM_PROMPT |};
             {| role := "user";
                content :=
                  "Create a short, clear human summary of the registration answers for final user confirmation. Do not add any new data; rephrase only."
                  ++ lf ++ "Data: {"
                  ++ dq ++ "first_name" ++ dq ++ ": " ++ dq ++ "Ann" ++ dq
                  ++ ", "
                  ++ dq ++ "last_name" ++ dq ++ ": " ++ dq ++ "Lee" ++ dq
                  ++ "}" |} ];
         req_temperature := 0 |} ].
Proof.
  destruct (log_is_kept_not_sent (canned "ok"))
    as (Hlog & _ & _ & Hlen & Hhelp & _ & Hcalls & _).
  split; [|split; [|split]].
  - apply (Hlog first_name [] [] ["  Ann "] start _ _ []
                (checked "Ann" (validate first_name) (prompted first_name start))).
    reflexivity.
  - apply (Hlen [last_name]). left. exists last_name.
    split; [left|]; reflexivity.
  - apply (Hhelp last_name [] [("first_name", "Ann")]
                 [log_entry first_name "Ann"] " Help " ["Lee"] start).
    reflexivity.
  - exact (Hcalls [first_name; last_name] []
             [ {| role := "system"; content := SYSTEM_PROMPT |} ]
             ["Ann"; "help"; "Lee"; "yes"] start).
Defined.

(** ** The gateway never raises *)

(** C9.  [llm] never raises: whatever the service does with the request,
    [llm] returns a string, and when the request fails with an error the
    string is the placeholder that describes the error.  So [explain_field]
    and [summarize_answers] always return a string, and no failure of the
    service ends a session: the only exception that leaves a session is the
    end of the input. *)
Theorem gateway_never_raises (svc : service) :
  (forall messages w,
      llm svc messages w
      = (Ok (reply svc messages (List.length (requests w))),
         sent (request_of messages) w)) /\
  (forall messages n e,
      svc n (request_of messages) = Raise e ->
      reply svc messages n = "(LLM error: " ++ exn_str e ++ ")") /\
  (forall field u w, exists text, fst (explain_field svc field u w) = Ok text) /\
  (forall answers w, exists text, fst (summarize_answers svc answers w) = Ok text) /\
  (forall fields answers ctx lines w,
      match fst (fst (session svc fields answers ctx lines w)) with
      | Crashed e => e = EOFError
      | _ => True
      end).
Proof.
  split; [|split; [|split; [|split]]].
  - apply llm_run.
  - intros messages n e H. unfold reply. rewrite H. reflexivity.
  - intros field u w. rewrite explain_field_run. eexists. reflexivity.
  - intros answers w. rewrite summarize_answers_run. eexists. reflexivity.
  - intros. apply session_crash.
Qed.

(** C9 with a service that always fails: the placeholder is returned, and
    the session still runs to completion. *)
Lemma gateway_never_raises_witness :
  reply (failing "connection refused") (explain_messages country None) 0
  = "(LLM error: connection refused)" /\
  fst (fst (run_registration (failing "connection refused")
              ["help"; "Ann"; "Lee"; "Peru"; "AB123456"; "salary"; "7"; "yes"]))
  = Completed.
Proof.
  destruct (gateway_never_raises (failing "connection refused"))
    as (_ & Hfail & _).
  split.
  - exact (Hfail (explain_messages country None) 0
             (ServiceError "connection refused") eq_refl).
  - reflexivity.
Defined.

(** ** Input is stripped *)

(** C10.  Every line is stripped before anything is done with it: a
    session does with a list of lines what it does with the stripped
    lines.  A line of whitespace only is an empty line; [  QUIT  ] and
    [  Help ] are the quit and help keywords, and [  YES ] confirms.  No
    value in the answers has whitespace at either end. *)
Theorem input_is_stripped (svc : service) :
  (forall fields answers ctx lines w,
      session svc fields answers ctx (map strip lines) w
      = rest_stripped (session svc fields answers ctx lines w)) /\
  (forall line,
      forallb isspace (list_ascii_of_string line) = true -> strip line = "") /\
  (forall field later answers ctx rest w,
      session svc (field :: later) answers ctx ("  QUIT  " :: rest) w
      = (Cancelled, rest, put ExitNotSaved (prompted field w)) /\
      session svc (field :: later) answers ctx ("  Help " :: rest) w
      = session svc (field :: later) answers ctx rest (helped svc field w)) /\
  (forall answers ctx rest w,
      session svc [] answers ctx ("  YES " :: rest) w
      = (Completed, rest,
         put (FinalJson (json_dumps_indent answers))
             (put FinalHeader (summarized svc answers w)))) /\
  (forall fields answers ctx lines w answers' ctx' rest w',
      collect svc fields answers ctx lines w = (Next answers' ctx', rest, w') ->
      Forall (fun kv => trimmed (snd kv)) answers ->
      Forall (fun kv => trimmed (snd kv)) answers') /\
  (forall lines rest w',
      run_registration svc lines = (Completed, rest, w') ->
      exists final,
        emitted w' = [json_dumps_indent final] /\
        Forall (fun kv => trimmed (snd kv)) final).
Proof.
  split; [|split; [|split; [|split; [|split]]]].
  - intros. apply session_strips.
  - apply strip_blank.
  - intros field later answers ctx rest w. split.
    + rewrite session_step. reflexivity.
    + rewrite session_step. reflexivity.
  - intros answers ctx rest w. rewrite session_confirm, confirmation_run.
    reflexivity.
  - intros fields answers ctx lines w answers' ctx' rest w' H.
    exact (collect_values svc _ _ _ _ _ _ _ _ _ H).
  - intros lines rest w' Hrun. unfold run_registration in Hrun.
    destruct (session_completed _ _ _ _ _ _ _ _ Hrun)
      as (final & c' & yes & w1 & Hc & _ & ->).
    exists final. split.
    + rewrite !emitted_put, app_nil_r, emitted_summarized.
      rewrite (collect_emitted _ _ _ _ _ _ _ _ _ Hc). reflexivity.
    + exact (collect_values svc _ _ _ _ _ _ _ _ _ Hc (Forall_nil _)).
Qed.

(** C10 on a run whose lines all carry whitespace. *)
Lemma input_is_stripped_witness :
  strip (String (ascii_of_nat 9) "  ") = "" /\
  (exists final,
      emitted (snd (run_registration (canned "ok")
                      ["  Ann"; "Lee  "; " Peru "; "AB123456"; "salary";
                       "   "; "  YES "]))
      = [json_dumps_indent final] /\
      Forall (fun kv => trimmed (snd kv)) final).
Proof.
  destruct (input_is_stripped (canned "ok")) as (_ & Hblank & _ & _ & _ & Hrun).
  split.
  - apply Hblank. reflexivity.
  - exact (Hrun ["  Ann"; "Lee  "; " Peru "; "AB123456"; "salary";
                 "   "; "  YES "] [] _ eq_refl).
Defined.

(** ** The schema and a whole dialogue *)

(** The rules of the schema, printed, are the pattern strings of the
    source. *)
Example schema_pattern_texts :
  map (fun f => option_map pattern_text (validate f)) SCHEMA
  = [Some "^[A-Za-z\-]{1,}$"; Some "^[A-Za-z\-]{2,}$";
     Some "^[A-Za-z\s\-]{2,}$"; Some "^[A-Za-z0-9]{6,20}$";
     Some "^.{3,}$"; Some "^\d{1,2}$"].
Proof. vm_compute. reflexivity. Qed.

(** The dialogue of the specification on the first two fields: [O'Brien]
    is refused, [Brien] accepted, [help] explains the last name and asks it
    again, [Lee] is accepted, [yes] confirms. *)
Example two_field_dialogue :
  session (canned "Your family name.") [first_name; last_name] [] []
          ["O'Brien"; "Brien"; "help"; "Lee"; "yes"] start
  = (Completed, [],
     {| stdout :=
          [Prompt "Please enter your First Name (as in your ID): ";
           InvalidFormat;
           Prompt "Please enter your First Name (as in your ID): ";
           Prompt "Please enter your Last Name (as in your ID): ";
           Explanation "Your family name.";
           Prompt "Please enter your Last Name (as in your ID): ";
           SummaryHeader; Summary "Your family name."; ConfirmPrompt;
           FinalHeader;
           FinalJson (json_dumps_indent
                        [("first_name", "Brien"); ("last_name", "Lee")])];
        requests :=
          [request_of (explain_messages last_name None);
           request_of (summarize_messages
                         [("first_name", "Brien"); ("last_name", "Lee")])];
        validated :=
          [("O'Brien", validate first_name); ("Brien", validate first_name);
           ("Lee", validate last_name)] |}).
Proof. vm_compute. reflexivity. Qed.

(** * Further properties of the dialogue *)

(** ** Lines that are values *)

Section ValueTurns.

Variable svc : service.

Lemma truthy_iff (s : string) : truthy s = true <-> s <> "".
Proof. destruct s; simpl; split; intros H; congruence. Qed.

Lemma classify_invalid (field : Field) (line : string) :
  lower (strip line) <> "quit" ->
  lower (strip line) <> "help" ->
  strip line <> "" ->
  is_valid (strip line) (validate field) = false ->
  classify field line = TInvalid.
Proof.
  intros Hq Hh Hne Hv. unfold classify.
  apply String.eqb_neq in Hq, Hh. rewrite Hq, Hh.
  apply truthy_iff in Hne. rewrite Hne, Hv, andb_false_r. reflexivity.
Qed.

Lemma classify_valid (field : Field) (line : string) :
  lower (strip line) <> "quit" ->
  lower (strip line) <> "help" ->
  strip line <> "" ->
  is_valid (strip line) (validate field) = true ->
  classify field line = TAccept.
Proof.
  intros Hq Hh Hne Hv. unfold classify.
  apply String.eqb_neq in Hq, Hh. rewrite Hq, Hh.
  apply truthy_iff in Hne. rewrite Hne, Hv, andb_false_r. reflexivity.
Qed.

Lemma classify_accept_inv (field : Field) (line : string) :
  classify field line = TAccept -> acceptable field (strip line).
Proof.
  unfold classify, acceptable.
  destruct (String.eqb_spec (lower (strip line)) "quit") as [|Hq];
    [discriminate|].
  destruct (String.eqb_spec (lower (strip line)) "help") as [|Hh];
    [discriminate|].
  destruct (required field) eqn:Hr; destruct (truthy (strip line)) eqn:Ht;
    simpl; try discriminate;
    destruct (is_valid (strip line) (validate field)) eqn:Hv;
    simpl; try discriminate; intros _;
    (split; [apply strip_trimmed|]); repeat split; auto;
    try (intros _; apply truthy_iff; exact Ht);
    try discriminate;
    intros Hne; apply truthy_iff in Hne; congruence.
Qed.

Lemma classify_help_inv (field : Field) (line : string) :
  classify field line = THelp -> lower (strip line) = "help".
Proof.
  unfold classify.
  destruct (lower (strip line) =? "quit"); [discriminate|].
  destruct (String.eqb_spec (lower (strip line)) "help") as [H|_]; [auto|].
  destruct (required field && negb (truthy (strip line))); [discriminate|].
  destruct (truthy (strip line)
            && negb (is_valid (strip line) (validate field))); discriminate.
Qed.

End ValueTurns.

(** X1.  A line that is a value (not empty, not quit, not help) and that
    the rule of the field rejects never advances the controller: the format
    error is printed, [is_valid] was called once, on the stripped line, no
    request is sent, nothing is emitted, and the session goes on from the
    same field with the same answers and log.  The same holds for any
    number of such lines in a row. *)
Theorem invalid_input_never_advances
    (svc : service) (field : Field) (later : list Field) (answers : dict)
    (ctx : list message) :
  (forall line rest w,
      lower (strip line) <> "quit" ->
      lower (strip line) <> "help" ->
      strip line <> "" ->
      is_valid (strip line) (validate field) = false ->
      session svc (field :: later) answers ctx (line :: rest) w
      = session svc (field :: later) answers ctx rest (rejected field line w) /\
      prompting svc field answers ctx (line :: rest) w
      = prompting svc field answers ctx rest (rejected field line w)) /\
  (forall line w,
      stdout (rejected field line w)
      = (stdout w ++ [Prompt (question field ++ " "); InvalidFormat])%list /\
      validated (rejected field line w)
      = (validated w ++ [(strip line, validate field)])%list /\
      requests (rejected field line w) = requests w /\
      emitted (rejected field line w) = emitted w) /\
  (forall bad w,
      Forall (fun line =>
                lower (strip line) <> "quit" /\
                lower (strip line) <> "help" /\
                strip line <> "" /\
                is_valid (strip line) (validate field) = false) bad ->
      exists w',
        session svc (field :: later) answers ctx bad w
        = (Crashed EOFError, [], prompted field w') /\
        requests w' = requests w /\
        emitted w' = emitted w /\
        List.length (validated w')
        = List.length (validated w) + List.length bad).
Proof.
  assert (Hstep : forall line rest w,
             lower (strip line) <> "quit" ->
             lower (strip line) <> "help" ->
             strip line <> "" ->
             is_valid (strip line) (validate field) = false ->
             session svc (field :: later) answers ctx (line :: rest) w
             = session svc (field :: later) answers ctx rest
                 (rejected field line w)).
  { intros line rest w Hq Hh Hne Hv.
    rewrite session_step, (classify_invalid field line Hq Hh Hne Hv).
    unfold after_turn. rewrite (classify_invalid field line Hq Hh Hne Hv).
    reflexivity. }
  split; [|split].
  - intros line rest w Hq Hh Hne Hv. split; [apply Hstep; assumption|].
    rewrite prompting_step, (classify_invalid field line Hq Hh Hne Hv).
    unfold after_turn. rewrite (classify_invalid field line Hq Hh Hne Hv).
    reflexivity.
  - intros line w. unfold rejected. repeat split.
    + simpl. rewrite <- app_assoc. reflexivity.
    + rewrite emitted_put, app_nil_r. unfold emitted, checked. simpl.
      apply emitted_prompted.
  - intros bad w Hall. revert w.
    induction Hall as [|line bad (Hq & Hh & Hne & Hv) _ IH]; intros w.
    + exists w. rewrite session_eof. repeat split. simpl. lia.
    + destruct (IH (rejected field line w)) as (w' & Hs & Hr & He & Hn).
      exists w'. rewrite (Hstep _ _ _ Hq Hh Hne Hv). repeat split.
      * exact Hs.
      * rewrite Hr. reflexivity.
      * rewrite He. unfold rejected.
        rewrite emitted_put, app_nil_r. unfold emitted, checked. simpl.
        apply emitted_prompted.
      * rewrite Hn. unfold rejected. simpl. rewrite length_app. simpl. lia.
Qed.

(** X1 at the first field: an apostrophe is not a letter. *)
Lemma invalid_input_never_advances_witness :
  session (canned "ok") [first_name] [] [] ["O'Brien"; "Brien"] start
  = session (canned "ok") [first_name] [] [] ["Brien"]
      (rejected first_name "O'Brien" start) /\
  (exists w',
      session (canned "ok") [first_name] [] [] ["O'Brien"; "12"] start
      = (Crashed EOFError, [], prompted first_name w') /\
      requests w' = requests start /\
      emitted w' = emitted start /\
      List.length (validated w') = List.length (validated start) + 2).
Proof.
  destruct (invalid_input_never_advances (canned "ok") first_name [] [] [])
    as (Hone & _ & Hmany).
  split.
  - apply (Hone "O'Brien" ["Brien"] start);
      [discriminate | discriminate | discriminate | reflexivity].
  - apply (Hmany ["O'Brien"; "12"] start).
    repeat constructor; try discriminate.
Defined.

(** X2.  A line that is a value (not empty, not quit, not help) and that
    the rule of the field accepts advances the controller to the next
    field: the stripped line is stored under the key of the field, one
    entry is added to the log, [is_valid] was called once, and nothing is
    printed but the prompt. *)
Theorem valid_input_advances
    (svc : service) (field : Field) (later : list Field) (answers : dict)
    (ctx : list message) (line : string) (rest : list string) (w : world) :
  lower (strip line) <> "quit" ->
  lower (strip line) <> "help" ->
  strip line <> "" ->
  is_valid (strip line) (validate field) = true ->
  session svc (field :: later) answers ctx (line :: rest) w
  = session svc later (dict_set (key field) (strip line) answers)
            (ctx ++ [log_entry field (strip line)])%list rest
            (accepted field line w) /\
  dict_get (key field) (dict_set (key field) (strip line) answers)
  = Some (strip line) /\
  stdout (accepted field line w)
  = (stdout w ++ [Prompt (question field ++ " ")])%list /\
  validated (accepted field line w)
  = (validated w ++ [(strip line, validate field)])%list /\
  requests (accepted field line w) = requests w.
Proof.
  intros Hq Hh Hne Hv. split; [|split; [apply dict_get_set_same|]].
  - rewrite session_step, (classify_valid field line Hq Hh Hne Hv).
    unfold after_turn. rewrite (classify_valid field line Hq Hh Hne Hv).
    apply truthy_iff in Hne. rewrite Hne. reflexivity.
  - repeat split.
Qed.

(** X2 at the first field. *)
Lemma valid_input_advances_witness :
  session (canned "ok") [first_name; last_name] [] [] [" Brien "; "Lee"] start
  = session (canned "ok") [last_name] [("first_name", "Brien")]
            [log_entry first_name "Brien"] ["Lee"]
            (accepted first_name " Brien " start).
Proof.
  exact (proj1 (valid_input_advances (canned "ok") first_name [last_name] [] []
                  " Brien " ["Lee"] start
                  ltac:(discriminate) ltac:(discriminate) ltac:(discriminate)
                  eq_refl)).
Defined.

(** ** What a completed session has collected *)

Section RecordFacts.

Variable svc : service.

(** When the fields have distinct keys, every field has in the answers the
    value its own loop let through. *)
Lemma collect_acceptable (fields : list Field) :
  forall answers ctx lines w final ctx' rest w',
    collect svc fields answers ctx lines w = (Next final ctx', rest, w') ->
    NoDup (map key fields) ->
    forall f, In f fields ->
              exists v, dict_get (key f) final = Some v /\ acceptable f v.
Proof.
  induction fields as [|field later IH];
    intros answers ctx lines w final ctx' rest w' H Hnd f Hin; [destruct Hin|].
  rewrite collect_cons in H.
  destruct (prompting svc field answers ctx lines w) as [[fl ls] w1] eqn:Hp.
  destruct fl as [a1 c1| |e]; try discriminate H.
  destruct (prompting_next _ _ _ _ _ _ _ _ _ _ Hp) as (l & _ & Hacc & -> & _).
  simpl in Hnd. inversion Hnd as [|k ks Hnot Hnd']; subst.
  destruct Hin as [<-|Hin].
  - exists (strip l). split.
    + rewrite (collect_get _ _ _ _ _ _ _ _ _ _ _ H Hnot).
      apply dict_get_set_same.
    + apply classify_accept_inv, Hacc.
  - exact (IH _ _ _ _ _ _ _ _ H Hnd' f Hin).
Qed.

Lemma last_char_append_nl (body : string) :
  last_char (body ++ nl) = Some newline.
Proof.
  induction body as [|c body IH]; [reflexivity|].
  cbn [append]. rewrite last_char_cons, IH.
  destruct (body ++ nl) eqn:Hb; [|reflexivity].
  destruct body; discriminate Hb.
Qed.

Lemma trimmed_no_final_newline (body : string) : ~ trimmed (body ++ nl).
Proof.
  intros [_ Hl]. specialize (Hl newline (last_char_append_nl body)).
  discriminate Hl.
Qed.

End RecordFacts.

(** X3.  When the fields have distinct keys, the record of a completed
    session satisfies the schema: every field has a value in it; the value
    has no whitespace at either end and is neither quit nor help in any
    letter case; it is not empty if the field is required; and if it is
    not empty the rule of the field accepts it. *)
Theorem record_satisfies_schema
    (svc : service) (fields : list Field) (ctx : list message)
    (lines rest : list string) (w w' : world) :
  NoDup (map key fields) ->
  session svc fields [] ctx lines w = (Completed, rest, w') ->
  exists final,
    emitted w' = (emitted w ++ [json_dumps_indent final])%list /\
    keys final = map key fields /\
    forall f, In f fields ->
              exists v, dict_get (key f) final = Some v /\ acceptable f v.
Proof.
  intros Hnd Hdone.
  destruct (session_completed _ _ _ _ _ _ _ _ Hdone)
    as (final & c' & yes & w1 & Hc & _ & ->).
  exists final. split; [|split].
  - rewrite !emitted_put, app_nil_r, emitted_summarized.
    rewrite (collect_emitted _ _ _ _ _ _ _ _ _ Hc). reflexivity.
  - exact (collect_keys _ _ _ _ _ _ _ _ _ _ Hc Hnd).
  - exact (collect_acceptable _ _ _ _ _ _ _ _ _ _ Hc Hnd).
Qed.

(** X3 on a complete run of the schema. *)
Lemma record_satisfies_schema_witness :
  NoDup (map key SCHEMA) /\
  exists final,
    emitted (snd (run_registration (canned "ok")
                    ["Ann"; "Lee"; "Peru"; "AB123456"; "salary"; ""; "yes"]))
    = (emitted (put Greeting start) ++ [json_dumps_indent final])%list /\
    keys final = map key SCHEMA /\
    forall f, In f SCHEMA ->
              exists v, dict_get (key f) final = Some v /\ acceptable f v.
Proof.
  assert (Hnd : NoDup (map key SCHEMA)).
  { repeat constructor; simpl; intuition discriminate. }
  split; [exact Hnd|].
  refine (record_satisfies_schema (canned "ok") SCHEMA
            [ {| role := "system"; content := SYSTEM_PROMPT |} ]
            ["Ann"; "Lee"; "Peru"; "AB123456"; "salary"; ""; "yes"] []
            (put Greeting start) _ Hnd _).
  reflexivity.
Defined.

(** X4.  Inside the dialogue the validator sees stripped input, and on
    stripped input a rule of the shape [^atom{..}$] is a whole-value check:
    the value is accepted exactly when every character of it matches the
    atom and its length is allowed.  Every rule of the schema has that
    shape. *)
Theorem stripped_value_is_checked_whole :
  (forall (a : atom) (q : quant) (line : string),
      is_valid (strip line) (Some [Bol; Rep a q; Eol]) = true <->
      forallb (atom_matches a) (list_ascii_of_string (strip line)) = true /\
      q_allows q (String.length (strip line)) = true) /\
  (forall (f : Field) (line : string),
      In f SCHEMA ->
      exists a q,
        validate f = Some [Bol; Rep a q; Eol] /\
        (is_valid (strip line) (validate f) = true <->
         forallb (atom_matches a) (list_ascii_of_string (strip line)) = true /\
         q_allows q (String.length (strip line)) = true)).
Proof.
  assert (Hgen : forall a q line,
             is_valid (strip line) (Some [Bol; Rep a q; Eol]) = true <->
             forallb (atom_matches a) (list_ascii_of_string (strip line)) = true /\
             q_allows q (String.length (strip line)) = true).
  { intros a q line. rewrite anchored_whole_value. split.
    - intros (body & [Hb|Hb] & Hall & Hq).
      + rewrite Hb. auto.
      + exfalso. apply (trimmed_no_final_newline body).
        rewrite <- Hb. apply strip_trimmed.
    - intros [Hall Hq]. exists (strip line). auto. }
  split; [exact Hgen|].
  intros f line Hin.
  assert (Hshape : exists a q, validate f = Some [Bol; Rep a q; Eol]).
  { assert (Hall : Forall (fun f => exists a q,
                                 validate f = Some [Bol; Rep a q; Eol]) SCHEMA)
      by (repeat constructor; eexists; eexists; reflexivity).
    exact (proj1 (Forall_forall _ _) Hall f Hin). }
  destruct Hshape as (a & q & Hv). exists a, q. split; [exact Hv|].
  rewrite Hv. apply Hgen.
Qed.

(** X4 at the passport number: a stripped line of eight letters and
    digits. *)
Lemma stripped_value_is_checked_whole_witness :
  exists a q,
    validate passport_number = Some [Bol; Rep a q; Eol] /\
    (is_valid (strip " AB123456 ") (validate passport_number) = true <->
     forallb (atom_matches a) (list_ascii_of_string (strip " AB123456 ")) = true /\
     q_allows q (String.length (strip " AB123456 ")) = true).
Proof.
  apply (proj2 stripped_value_is_checked_whole passport_number " AB123456 ").
  simpl. tauto.
Defined.

(** X5.  The summary the user confirms is the summary of the record that
    is emitted: in a completed session the last request sent is the request
    for the summary of exactly the answers printed as the final record, and
    the summary shown is the reply to that request. *)
Theorem summary_is_of_the_record
    (svc : service) (fields : list Field) (answers : dict)
    (ctx : list message) (lines rest : list string) (w w' : world) :
  session svc fields answers ctx lines w = (Completed, rest, w') ->
  exists final earlier out n,
    requests w' = (earlier ++ [request_of (summarize_messages final)])%list /\
    n = List.length earlier /\
    stdout w'
    = (out ++ [SummaryHeader;
               Summary (reply svc (summarize_messages final) n);
               ConfirmPrompt; FinalHeader;
               FinalJson (json_dumps_indent final)])%list /\
    emitted w' = (emitted w ++ [json_dumps_indent final])%list.
Proof.
  intros Hdone.
  destruct (session_completed _ _ _ _ _ _ _ _ Hdone)
    as (final & c' & yes & w1 & Hc & _ & ->).
  exists final, (requests w1), (stdout w1), (List.length (requests w1)).
  split; [reflexivity|]. split; [reflexivity|]. split.
  - simpl. rewrite <- !app_assoc. reflexivity.
  - rewrite !emitted_put, app_nil_r, emitted_summarized.
    rewrite (collect_emitted _ _ _ _ _ _ _ _ _ Hc). reflexivity.
Qed.

(** X5 on two fields, with one help before the summary. *)
Lemma summary_is_of_the_record_witness :
  exists final earlier out n,
    requests (snd (session (canned "ok") [first_name; last_name] [] []
                     ["Brien"; "help"; "Lee"; "yes"] start))
    = (earlier ++ [request_of (summarize_messages final)])%list /\
    n = List.length earlier /\
    stdout (snd (session (canned "ok") [first_name; last_name] [] []
                   ["Brien"; "help"; "Lee"; "yes"] start))
    = (out ++ [SummaryHeader;
               Summary (reply (canned "ok") (summarize_messages final) n);
               ConfirmPrompt; FinalHeader;
               FinalJson (json_dumps_indent final)])%list /\
    emitted (snd (session (canned "ok") [first_name; last_name] [] []
                    ["Brien"; "help"; "Lee"; "yes"] start))
    = (emitted start ++ [json_dumps_indent final])%list.
Proof.
  exact (summary_is_of_the_record (canned "ok") [first_name; last_name] [] []
           ["Brien"; "help"; "Lee"; "yes"] [] start _ eq_refl).
Defined.

(** ** Accounts of a session: requests, lines, prompts *)

Section Accounts.

Variable svc : service.

Lemma requests_after_turn_quiet (field : Field) (line : string) (w : world) :
  classify field line <> THelp ->
  requests (after_turn svc field line w) = requests w.
Proof.
  unfold after_turn. intros H.
  destruct (classify field line); try destruct (truthy (strip line));
    try reflexivity; contradiction.
Qed.

Lemma prompts_put (o : output) (w : world) :
  List.length (filter is_prompt (stdout (put o w)))
  = List.length (filter is_prompt (stdout w)) + (if is_prompt o then 1 else 0).
Proof.
  unfold put. simpl. rewrite filter_app, length_app. simpl.
  destruct (is_prompt o); reflexivity.
Qed.

Lemma prompts_prompted (field : Field) (w : world) :
  List.length (filter is_prompt (stdout (prompted field w)))
  = List.length (filter is_prompt (stdout w)) + 1.
Proof. unfold prompted. rewrite prompts_put. reflexivity. Qed.

Lemma stdout_sent (r : request) (w : world) : stdout (sent r w) = stdout w.
Proof. reflexivity. Qed.

Lemma stdout_checked (v : string) (p : option regex) (w : world) :
  stdout (checked v p w) = stdout w.
Proof. reflexivity. Qed.

Lemma prompts_after_turn (field : Field) (line : string) (w : world) :
  List.length (filter is_prompt (stdout (after_turn svc field line w)))
  = List.length (filter is_prompt (stdout w)) + 1.
Proof.
  unfold after_turn, helped, refused.
  destruct (classify field line); try destruct (truthy (strip line));
    rewrite ?prompts_put, ?stdout_sent, ?stdout_checked, ?prompts_prompted;
    cbn [is_prompt]; lia.
Qed.

Lemma prompts_summarized (answers : dict) (w : world) :
  List.length (filter is_prompt (stdout (summarized svc answers w)))
  = List.length (filter is_prompt (stdout w)) + 1.
Proof.
  unfold summarized. rewrite !prompts_put. simpl.
  rewrite filter_app, length_app. simpl. lia.
Qed.

End Accounts.

(** X6.  The gateway is called only for help and for the summary: in a
    session where no line is [help] (stripped, in any letter case), no
    explanation is requested, and the requests sent are none, or the one
    request for the summary. *)
Theorem without_help_only_the_summary
    (svc : service) (lines : list string) :
  Forall (fun line => lower (strip line) <> "help") lines ->
  forall fields answers ctx w,
    exists new,
      requests (snd (session svc fields answers ctx lines w))
      = (requests w ++ new)%list /\
      (new = [] \/ exists final, new = [request_of (summarize_messages final)]).
Proof.
  assert (Hconf : forall answers ctx ls w,
             exists new,
               requests (snd (session svc [] answers ctx ls w))
               = (requests w ++ new)%list /\
               (new = [] \/
                exists final, new = [request_of (summarize_messages final)])).
  { intros answers ctx ls w. rewrite session_confirm, confirmation_run.
    exists [request_of (summarize_messages answers)]. split.
    - destruct ls as [|l ls]; [|destruct (lower (strip l) =? "yes")];
        reflexivity.
    - right. exists answers. reflexivity. }
  induction 1 as [|line rest Hline _ IH]; intros [|field later] answers ctx w;
    try apply Hconf.
  - rewrite session_eof. exists []. split; [symmetry; apply app_nil_r | auto].
  - rewrite session_step.
    assert (Hnh : classify field line <> THelp).
    { intros Hc. apply Hline. exact (classify_help_inv field line Hc). }
    pose proof (requests_after_turn_quiet svc field line w Hnh) as Hq.
    destruct (classify field line); try contradiction;
      try (rewrite <- Hq; apply IH).
    exists []. simpl. rewrite Hq, app_nil_r. auto.
Qed.

(** X6 on a run without help that reaches the summary. *)
Lemma without_help_only_the_summary_witness :
  exists new,
    requests (snd (session (canned "ok") [first_name] [] []
                     ["O'Brien"; "Brien"; "no"] start))
    = (requests start ++ new)%list /\
    (new = [] \/ exists final, new = [request_of (summarize_messages final)]).
Proof.
  apply (without_help_only_the_summary (canned "ok")
           ["O'Brien"; "Brien"; "no"]).
  repeat constructor; discriminate.
Defined.

(** X7.  A session reads its input from the front and asks once for every
    line it reads: what is left unread is a suffix of the input, the number
    of prompts printed is the number of lines read, plus one when the input
    ended at a prompt, and a session that completes has read at least one
    line for every field and one for the confirmation. *)
Theorem session_reads_a_prefix
    (svc : service) (lines : list string) :
  forall fields answers ctx w st rest w',
    session svc fields answers ctx lines w = (st, rest, w') ->
    exists used,
      lines = (used ++ rest)%list /\
      List.length (filter is_prompt (stdout w'))
      = List.length (filter is_prompt (stdout w)) + List.length used
        + (match st with Crashed _ => 1 | _ => 0 end) /\
      (st = Completed -> List.length fields + 1 <= List.length used).
Proof.
  induction lines as [|line more IH];
    intros [|field later] answers ctx w st rest w' H.
  - rewrite session_confirm, confirmation_run in H. injection H as <- <- <-.
    exists []. rewrite prompts_summarized. cbn [List.length].
    repeat split; [lia | discriminate].
  - rewrite session_eof in H. injection H as <- <- <-.
    exists []. rewrite prompts_prompted. cbn [List.length].
    repeat split; [lia | discriminate].
  - rewrite session_confirm, confirmation_run in H.
    exists [line].
    destruct (lower (strip line) =? "yes"); injection H as <- <- <-;
      rewrite ?prompts_put, prompts_summarized; simpl;
      repeat split; lia.
  - rewrite session_step in H.
    pose proof (prompts_after_turn svc field line w) as Hp.
    destruct (classify field line) eqn:Hc.
    + injection H as <- <- <-. exists [line].
      rewrite Hp. simpl. repeat split; [lia | discriminate].
    + destruct (IH _ _ _ _ _ _ _ H) as (used & -> & Hn & Hd).
      exists (line :: used). rewrite Hn, Hp. simpl.
      repeat split; [lia | intros Hs; specialize (Hd Hs); simpl in Hd; lia].
    + destruct (IH _ _ _ _ _ _ _ H) as (used & -> & Hn & Hd).
      exists (line :: used). rewrite Hn, Hp. simpl.
      repeat split; [lia | intros Hs; specialize (Hd Hs); simpl in Hd; lia].
    + destruct (IH _ _ _ _ _ _ _ H) as (used & -> & Hn & Hd).
      exists (line :: used). rewrite Hn, Hp. simpl.
      repeat split; [lia | intros Hs; specialize (Hd Hs); simpl in Hd; lia].
    + destruct (IH _ _ _ _ _ _ _ H) as (used & -> & Hn & Hd).
      exists (line :: used). rewrite Hn, Hp. simpl.
      repeat split; [lia | intros Hs; specialize (Hd Hs); lia].
Qed.

(** X7 on a run that leaves one line unread. *)
Lemma session_reads_a_prefix_witness :
  exists used,
    ["Brien"; "help"; "Lee"; "yes"; "more"] = (used ++ ["more"])%list /\
    List.length (filter is_prompt
                   (stdout (snd (session (canned "ok") [first_name; last_name]
                                   [] [] ["Brien"; "help"; "Lee"; "yes"; "more"]
                                   start))))
    = List.length (filter is_prompt (stdout start)) + List.length used + 0 /\
    List.length [first_name; last_name] + 1 <= List.length used.
Proof.
  destruct (session_reads_a_prefix (canned "ok")
              ["Brien"; "help"; "Lee"; "yes"; "more"]
              [first_name; last_name] [] [] start Completed ["more"] _ eq_refl)
    as (used & Hu & Hn & Hd).
  exists used. split; [exact Hu|]. split; [exact Hn | exact (Hd eq_refl)].
Defined.

(** X8.  A session ends with an exception only when the input has run
    out while it waited for a line: then nothing is left unread, the last
    thing printed is a prompt, and no record was emitted. *)
Theorem crash_only_at_end_of_input
    (svc : service) (lines : list string) :
  forall fields answers ctx w e rest w',
    session svc fields answers ctx lines w = (Crashed e, rest, w') ->
    e = EOFError /\
    rest = [] /\
    (exists out p, stdout w' = (out ++ [p])%list /\ is_prompt p = true) /\
    emitted w' = emitted w.
Proof.
  induction lines as [|line more IH];
    intros [|field later] answers ctx w e rest w' H.
  - rewrite session_confirm, confirmation_run in H. injection H as <- <- <-.
    repeat split; [|apply emitted_summarized].
    eexists. exists ConfirmPrompt. split; reflexivity.
  - rewrite session_eof in H. injection H as <- <- <-.
    repeat split; [|apply emitted_prompted].
    eexists. eexists. split; reflexivity.
  - rewrite session_confirm, confirmation_run in H.
    destruct (lower (strip line) =? "yes"); discriminate H.
  - rewrite session_step in H.
    pose proof (emitted_after_turn svc field line w) as He.
    destruct (classify field line); try discriminate H;
      rewrite <- He; exact (IH _ _ _ _ _ _ _ H).
Qed.

(** X8 on an input that ends at the second field. *)
Lemma crash_only_at_end_of_input_witness :
  session (failing "down") [first_name; last_name] [] [] ["Brien"; "help"] start
  = (Crashed EOFError, [],
     snd (session (failing "down") [first_name; last_name] [] []
            ["Brien"; "help"] start)) /\
  (exists out p,
      stdout (snd (session (failing "down") [first_name; last_name] [] []
                     ["Brien"; "help"] start))
      = (out ++ [p])%list /\ is_prompt p = true) /\
  emitted (snd (session (failing "down") [first_name; last_name] [] []
                  ["Brien"; "help"] start)) = emitted start.
Proof.
  split; [reflexivity|].
  exact (proj2 (proj2
    (crash_only_at_end_of_input (failing "down") ["Brien"; "help"]
       [first_name; last_name] [] [] start EOFError [] _ eq_refl))).
Defined.

(** ** What the requests carry *)

Section Substrings.

Lemma prefix_append (x b : string) : String.prefix x (x ++ b) = true.
Proof.
  induction x as [|c x IH]; simpl; [destruct b; reflexivity|].
  destruct (ascii_dec c c) as [_|Hn]; [exact IH | contradiction].
Qed.

Lemma prefix_extend (x s b : string) :
  String.prefix x s = true -> String.prefix x (s ++ b) = true.
Proof.
  revert s. induction x as [|c x IH]; intros s H; simpl.
  - destruct (s ++ b); reflexivity.
  - destruct s as [|d s]; simpl in *; [discriminate|].
    destruct (ascii_dec c d); [apply IH, H | discriminate].
Qed.

Lemma contains_of_prefix (x s : string) :
  String.prefix x s = true -> contains x s = true.
Proof. intros H. destruct s; cbn [contains]; rewrite H; reflexivity. Qed.

Lemma contains_here (x b : string) : contains x (x ++ b) = true.
Proof. apply contains_of_prefix, prefix_append. Qed.

Lemma contains_skip (x a s : string) :
  contains x s = true -> contains x (a ++ s) = true.
Proof.
  intros H. induction a as [|c a IH]; [exact H|].
  simpl. rewrite IH. apply orb_true_r.
Qed.

Lemma contains_extend (x s b : string) :
  contains x s = true -> contains x (s ++ b) = true.
Proof.
  induction s as [|c s IH]; intros H.
  - cbn [contains] in H. rewrite orb_false_r in H.
    apply contains_of_prefix. exact (prefix_extend _ _ b H).
  - cbn [contains] in H. apply orb_true_iff in H as [H|H].
    + apply contains_of_prefix. exact (prefix_extend _ _ b H).
    + cbn [append contains]. rewrite (IH H). apply orb_true_r.
Qed.

Lemma append_empty (x : string) : x ++ "" = x.
Proof. induction x as [|c x IH]; simpl; congruence. Qed.

Lemma contains_self (x : string) : contains x x = true.
Proof.
  pose proof (contains_here x "") as H.
  rewrite append_empty in H. exact H.
Qed.

Lemma contains_concat (sep x : string) (l : list string) :
  In x l -> contains x (String.concat sep l) = true.
Proof.
  induction l as [|y l IH]; intros Hin; [destruct Hin|].
  cbn [String.concat]. destruct l as [|z l].
  - destruct Hin as [->|[]]. apply contains_self.
  - destruct Hin as [->|Hin].
    + apply contains_here.
    + apply contains_skip, contains_skip, IH, Hin.
Qed.

End Substrings.

Ltac find_part :=
  first [ apply contains_here
        | apply contains_self
        | apply contains_skip; find_part ].

(** X9.  The two requests are made of the system prompt and one user
    message.  The user message of an explanation carries the question of
    the field, its help text, the text of its rule and the question of the
    user, each empty when missing; the user message of the summary carries
    the JSON text of the answers, and so every key with its value. *)
Theorem requests_carry_field_and_answers :
  (forall (field : Field) (u : option string),
      exists text,
        explain_messages field u
        = [ {| role := "system"; content := SYSTEM_PROMPT |};
            {| role := "user"; content := text |} ] /\
        contains (question field) text = true /\
        contains (or_empty (help field)) text = true /\
        contains (or_empty (option_map pattern_text (validate field))) text
        = true /\
        contains (or_empty u) text = true) /\
  (forall (answers : dict),
      exists text,
        summarize_messages answers
        = [ {| role := "system"; content := SYSTEM_PROMPT |};
            {| role := "user"; content := text |} ] /\
        contains (json_dumps answers) text = true /\
        forall kv, In kv answers -> contains (json_item kv) text = true).
Proof.
  split.
  - intros field u. eexists. split; [reflexivity|].
    repeat split; find_part.
  - intros answers. eexists. split; [reflexivity|]. split; [find_part|].
    intros kv Hin. do 4 apply contains_skip. unfold json_dumps.
    apply contains_skip, contains_extend, contains_concat.
    apply in_map, Hin.
Qed.

(** X9 on the answers of two fields. *)
Lemma requests_carry_field_and_answers_witness :
  exists text,
    summarize_messages [("first_name", "Brien"); ("last_name", "Lee")]
    = [ {| role := "system"; content := SYSTEM_PROMPT |};
        {| role := "user"; content := text |} ] /\
    contains (json_item ("last_name", "Lee")) text = true.
Proof.
  destruct (proj2 requests_carry_field_and_answers
              [("first_name", "Brien"); ("last_name", "Lee")])
    as (text & Hm & _ & Hall).
  exists text. split; [exact Hm|].
  apply Hall. right. left. reflexivity.
Defined.

(** ** Schemas whose keys repeat *)

Section RepeatedKeys.

Variable svc : service.

Lemma keys_dict_set_old (k v : string) (d : dict) :
  In k (keys d) -> keys (dict_set k v d) = keys d.
Proof.
  induction d as [|[k' v'] d IH]; intros Hin; [destruct Hin|].
  cbn [dict_set]. destruct (String.eqb_spec k' k) as [->|Hne]; [reflexivity|].
  unfold keys in *. cbn [map fst]. rewrite IH; [reflexivity|].
  destruct Hin as [He|Hin]; [contradiction | exact Hin].
Qed.

Lemma keys_dict_set_cases (k v : string) (d : dict) :
  (In k (keys d) /\ keys (dict_set k v d) = keys d) \/
  (~ In k (keys d) /\ keys (dict_set k v d) = (keys d ++ [k])%list).
Proof.
  destruct (in_dec string_dec k (keys d)) as [Hin|Hn].
  - left. split; [exact Hin | apply keys_dict_set_old, Hin].
  - right. split; [exact Hn | apply keys_dict_set_new, Hn].
Qed.

(** The keys stay distinct, and they are those that were there and those
    of the fields. *)
Lemma collect_key_set (fields : list Field) :
  forall answers ctx lines w final ctx' rest w',
    collect svc fields answers ctx lines w = (Next final ctx', rest, w') ->
    NoDup (keys answers) ->
    NoDup (keys final) /\
    forall k, In k (keys final) <-> In k (keys answers) \/ In k (map key fields).
Proof.
  induction fields as [|field later IH];
    intros answers ctx lines w final ctx' rest w' H Hnd.
  - injection H as <- _ _ _. split; [exact Hnd|]. intros k. simpl. tauto.
  - rewrite collect_cons in H.
    destruct (prompting svc field answers ctx lines w) as [[fl ls] w1] eqn:Hp.
    destruct fl as [a1 c1| |e]; try discriminate H.
    destruct (prompting_next _ _ _ _ _ _ _ _ _ _ Hp) as (l & _ & _ & -> & _).
    assert (Hnd1 : NoDup (keys (dict_set (key field) (strip l) answers))).
    { destruct (keys_dict_set_cases (key field) (strip l) answers)
        as [[_ ->]|[Hn ->]]; [exact Hnd|].
      apply NoDup_app; [exact Hnd | repeat constructor; intros [] |].
      intros k Hk [<-|[]]. exact (Hn Hk). }
    destruct (IH _ _ _ _ _ _ _ _ H Hnd1) as [Hfinal Hset].
    split; [exact Hfinal|]. intros k. rewrite Hset. simpl.
    destruct (keys_dict_set_cases (key field) (strip l) answers)
      as [[Hin ->]|[_ ->]].
    + split; [tauto|]. intros [Hk|[<-|Hk]]; auto.
    + rewrite in_app_iff. simpl. tauto.
Qed.

End RepeatedKeys.

(** X10.  Whatever the schema, also when keys repeat in it, the record
    of a completed session holds every key of the schema exactly once and
    no other key. *)
Theorem record_has_each_key_once
    (svc : service) (fields : list Field) (ctx : list message)
    (lines rest : list string) (w w' : world) :
  session svc fields [] ctx lines w = (Completed, rest, w') ->
  exists final,
    emitted w' = (emitted w ++ [json_dumps_indent final])%list /\
    NoDup (keys final) /\
    forall k, In k (keys final) <-> In k (map key fields).
Proof.
  intros Hdone.
  destruct (session_completed _ _ _ _ _ _ _ _ Hdone)
    as (final & c' & yes & w1 & Hc & _ & ->).
  destruct (collect_key_set svc _ _ _ _ _ _ _ _ _ Hc (NoDup_nil _))
    as [Hnd Hset].
  exists final. split; [|split; [exact Hnd|]].
  - rewrite !emitted_put, app_nil_r, emitted_summarized.
    rewrite (collect_emitted _ _ _ _ _ _ _ _ _ Hc). reflexivity.
  - intros k. rewrite Hset. simpl. tauto.
Qed.

(** X10 on a schema that asks the first name twice. *)
Lemma record_has_each_key_once_witness :
  exists final,
    emitted (snd (session (canned "ok") [first_name; last_name; first_name]
                    [] [] ["Ann"; "Lee"; "Anna"; "yes"] start))
    = (emitted start ++ [json_dumps_indent final])%list /\
    NoDup (keys final) /\
    forall k, In k (keys final)
              <-> In k (map key [first_name; last_name; first_name]).
Proof.
  exact (record_has_each_key_once (canned "ok")
           [first_name; last_name; first_name] []
           ["Ann"; "Lee"; "Anna"; "yes"] [] start _ eq_refl).
Defined.

(** ** The result of [llm] by cases *)

(** X11.  What [llm] returns when the request succeeds: the content of
    the first choice, stripped, and the empty string when that content is
    missing; so the text has no whitespace at either end.  When the reply
    has no choice at all, [llm] returns the placeholder of the index error
    instead of raising.  In each case exactly one request was sent, with
    the model of the program and temperature 0. *)
Theorem llm_result_by_cases
    (svc : service) (messages : list message) (w : world) :
  (forall c others,
      svc (List.length (requests w)) (request_of messages)
      = Ok {| choices := c :: others |} ->
      llm svc messages w
      = (Ok (strip (or_empty c)), sent (request_of messages) w) /\
      trimmed (strip (or_empty c)) /\
      (c = None -> strip (or_empty c) = "")) /\
  (svc (List.length (requests w)) (request_of messages)
   = Ok {| choices := [] |} ->
   llm svc messages w
   = (Ok "(LLM error: list index out of range)",
      sent (request_of messages) w)) /\
  requests (snd (llm svc messages w))
  = (requests w ++ [ {| req_model := "gpt-4o-mini";
                        req_messages := messages;
                        req_temperature := 0 |} ])%list.
Proof.
  split; [|split].
  - intros c others H. rewrite llm_run. unfold reply. rewrite H.
    split; [reflexivity|]. split; [apply strip_trimmed|].
    intros ->. reflexivity.
  - intros H. rewrite llm_run. unfold reply. rewrite H. reflexivity.
  - rewrite llm_run. reflexivity.
Qed.

(** X11 with a service that pads its answer with whitespace. *)
Lemma llm_result_by_cases_witness :
  llm (canned "  Your family name.  ") (explain_messages last_name None) start
  = (Ok "Your family name.",
     sent (request_of (explain_messages last_name None)) start) /\
  llm (fun _ _ => Ok {| choices := [] |}) (explain_messages last_name None) start
  = (Ok "(LLM error: list index out of range)",
     sent (request_of (explain_messages last_name None)) start).
Proof.
  split.
  - exact (proj1 (proj1
      (llm_result_by_cases (canned "  Your family name.  ")
         (explain_messages last_name None) start)
      (Some "  Your family name.  ") [] eq_refl)).
  - exact (proj1 (proj2
      (llm_result_by_cases (fun _ _ => Ok {| choices := [] |})
         (explain_messages last_name None) start)) eq_refl).
Defined.
